(** * Library manager: a shallow embedding of [app/main.py] and its properties

    The catalogue is a Python list of book dictionaries kept by
    [LibraryManager]; books are built and validated by [Book].  Python
    strings are sequences of Unicode code points, exceptions are an error
    result, the catalogue is threaded through the operations explicitly, and
    the calendar year read by [date.today()] is an argument. *)

From Stdlib Require Import ZArith NArith Ascii String Lia.
From Equations Require Import Equations.
From stdpp Require Import base tactics option list numbers.

Local Open Scope N_scope.

(** ** Python strings *)

Module PyStr.

(** A [str] is a sequence of code points. *)
Definition str := list N.

(** Reading a literal of this file (UTF-8 bytes) as code points. *)
Fixpoint utf8_decode (bs : list N) : str :=
  match bs with
  | [] => []
  | b0 :: t0 =>
    if b0 <? 0x80 then b0 :: utf8_decode t0
    else match t0 with
    | [] => []
    | b1 :: t1 =>
      if b0 <? 0xE0 then ((b0 - 0xC0) * 0x40 + (b1 - 0x80)) :: utf8_decode t1
      else match t1 with
      | [] => []
      | b2 :: t2 =>
        if b0 <? 0xF0
        then ((b0 - 0xE0) * 0x1000 + (b1 - 0x80) * 0x40 + (b2 - 0x80)) :: utf8_decode t2
        else match t2 with
        | [] => []
        | b3 :: t3 =>
          ((b0 - 0xF0) * 0x40000 + (b1 - 0x80) * 0x1000
           + (b2 - 0x80) * 0x40 + (b3 - 0x80)) :: utf8_decode t3
        end
      end
    end
  end.

Definition py (s : string) : str :=
  utf8_decode (map N_of_ascii (list_ascii_of_string s)).

Definition in_range (lo hi c : N) : bool := (lo <=? c) && (c <=? hi).

(** Whitespace as [str.strip] and the regular expression class [\s] see it
    ([Py_UNICODE_ISSPACE]). *)
Definition is_space (c : N) : bool :=
  in_range 0x09 0x0D c || in_range 0x1C 0x1F c || (c =? 0x20)
  || (c =? 0x85) || (c =? 0xA0) || (c =? 0x1680)
  || in_range 0x2000 0x200A c || (c =? 0x2028) || (c =? 0x2029)
  || (c =? 0x202F) || (c =? 0x205F) || (c =? 0x3000).

(** Decimal digits as the class [\d] and [int] see them: the code points of
    Unicode category Nd come in runs of ten, listed here by their zero
    (Unicode 14.0, the table of CPython 3.11). *)
Definition decimal_zeros : list N :=
  [ 0x30; 0x660; 0x6F0; 0x7C0; 0x966; 0x9E6; 0xA66; 0xAE6; 0xB66; 0xBE6;
    0xC66; 0xCE6; 0xD66; 0xDE6; 0xE50; 0xED0; 0xF20; 0x1040; 0x1090; 0x17E0;
    0x1810; 0x1946; 0x19D0; 0x1A80; 0x1A90; 0x1B50; 0x1BB0; 0x1C40; 0x1C50;
    0xA620; 0xA8D0; 0xA900; 0xA9D0; 0xA9F0; 0xAA50; 0xABF0; 0xFF10; 0x104A0;
    0x10D30; 0x11066; 0x110F0; 0x11136; 0x111D0; 0x112F0; 0x11450; 0x114D0;
    0x11650; 0x116C0; 0x11730; 0x118E0; 0x11950; 0x11C50; 0x11D50; 0x11DA0;
    0x16A60; 0x16AC0; 0x16B50; 0x1D7CE; 0x1D7D8; 0x1D7E2; 0x1D7EC; 0x1D7F6;
    0x1E140; 0x1E2F0; 0x1E950; 0x1FBF0 ].

Fixpoint digit_in (zeros : list N) (c : N) : option N :=
  match zeros with
  | [] => None
  | z :: zs => if in_range z (z + 9) c then Some (c - z) else digit_in zs c
  end.

Definition digit_value (c : N) : option N := digit_in decimal_zeros c.

Definition is_decimal (c : N) : bool :=
  match digit_value c with Some _ => true | None => false end.

(** Case of the letters the validators admit: Latin A-Z, a-z and Cyrillic
    with its letter IO.  Every other code point is taken as uncased and
    mapped to itself, which is what Python does with all the others a
    validated string can hold (decimal digits, whitespace, punctuation). *)
Definition is_cased (c : N) : bool :=
  in_range 0x41 0x5A c || in_range 0x61 0x7A c
  || in_range 0x410 0x44F c || (c =? 0x401) || (c =? 0x451).

Definition to_lower (c : N) : N :=
  if in_range 0x41 0x5A c || in_range 0x410 0x42F c then c + 0x20
  else if c =? 0x401 then 0x451 else c.

Definition to_title (c : N) : N :=
  if in_range 0x61 0x7A c || in_range 0x430 0x44F c then c - 0x20
  else if c =? 0x451 then 0x401 else c.

(** [str.lower] *)
Definition str_lower (s : str) : str := map to_lower s.

(** [str.title]: a character is title-cased when the one before it is not
    cased, lower-cased otherwise. *)
Fixpoint title_from (previous_is_cased : bool) (s : str) : str :=
  match s with
  | [] => []
  | c :: s' =>
    (if previous_is_cased then to_lower c else to_title c)
      :: title_from (is_cased c) s'
  end.

Definition str_title (s : str) : str := title_from false s.

(** [str.strip] with no argument; [lstrip_by] is shared with [int], whose
    notion of whitespace differs. *)
Fixpoint lstrip_by (space : N → bool) (s : str) : str :=
  match s with
  | [] => []
  | c :: s' => if space c then lstrip_by space s' else s
  end.

Definition strip_by (space : N → bool) (s : str) : str :=
  rev (lstrip_by space (rev (lstrip_by space s))).

Definition str_strip (s : str) : str := strip_by is_space s.

(** [s.startswith(p)], returning what follows the prefix *)
Fixpoint strip_prefix (p s : str) : option str :=
  match p, s with
  | [], _ => Some s
  | _ :: _, [] => None
  | a :: p', b :: s' => if a =? b then strip_prefix p' s' else None
  end.

(** [str.split(sep)]: the pieces between the occurrences of [sep], found
    from the left.  [piece] holds the current piece reversed and [skip] the
    number of characters of a found separator that are still to be passed.
    An empty separator is a [ValueError] ([None]). *)
Fixpoint split_from (sep : str) (skip : nat) (piece : str) (s : str) : list str :=
  match s with
  | [] => [rev piece]
  | c :: s' =>
    match skip with
    | S n => split_from sep n piece s'
    | O =>
      match strip_prefix sep s with
      | Some _ => rev piece :: split_from sep (length sep - 1) [] s'
      | None => split_from sep 0 (c :: piece) s'
      end
    end
  end.

Definition str_split (sep s : str) : option (list str) :=
  match sep with
  | [] => None
  | _ :: _ => Some (split_from sep 0 [] s)
  end.

(** [int(s)] for a string, base ten: surrounding whitespace, an optional
    sign, then decimal digits with single underscores between them.  The
    information-separator controls U+001C..U+001F are whitespace for [strip]
    but not for [int].  More digits than the interpreter's limit
    ([sys.int_info.default_max_str_digits]) are refused.  [None] is the
    [ValueError] of a string that is no integer. *)
Definition is_int_space (c : N) : bool :=
  is_space c && negb (in_range 0x1C 0x1F c).

Definition max_str_digits : nat := 4300.

Fixpoint int_digits (acc : N) (count : nat) (after_underscore : bool) (s : str)
  : option (N * nat) :=
  match s with
  | [] => if after_underscore then None else Some (acc, count)
  | c :: s' =>
    if c =? 0x5F then
      if after_underscore then None else int_digits acc count true s'
    else
      match digit_value c with
      | Some d => int_digits (10 * acc + d) (S count) false s'
      | None => None
      end
  end.

Definition int_of_str (s : str) : option Z :=
  let s := strip_by is_int_space s in
  let '(negative, body) :=
    match s with
    | c :: s' => if c =? 0x2D then (true, s')
                 else if c =? 0x2B then (false, s') else (false, s)
    | [] => (false, s)
    end in
  match body with
  | [] => None
  | c :: _ =>
    if c =? 0x5F then None
    else match int_digits 0 0 false body with
         | Some (v, count) =>
           if (max_str_digits <? count)%nat then None
           else Some (if negative then (- Z.of_N v)%Z else Z.of_N v)
         | None => None
         end
  end.

End PyStr.

(** ** Regular expressions, as [re.search] runs them *)

Module Regex.
Import PyStr.

(** The constructs the two patterns of [Book] use: a character class, the
    anchors [^] and [$], concatenation, alternation, and the greedy
    repetition [r{lo,hi}] ([hi = None] for no upper bound). *)
Inductive regex : Type :=
| Cls (p : N → bool)
| Bol
| Eol
| Cat (r1 r2 : regex)
| Alt (r1 r2 : regex)
| Rep (lo : nat) (hi : option nat) (r : regex).

(** [$] matches at the end of the string and just before a final newline. *)
Definition at_end (s : str) : bool :=
  match s with
  | [] => true
  | [c] => c =? 0x0A
  | _ => false
  end.

(** A backtracking matcher in continuation-passing style.  [pos] is the
    number of characters before the current point, [s] what is left of the
    subject, and the continuation [k] runs the rest of the pattern; the
    result is the position where the first successful match ends. *)
Definition cont := nat → str → option nat.

Definition or_else (a : option nat) (b : option nat) : option nat :=
  match a with Some e => Some e | None => b end.

(** Greedy repetition of the matcher [m]: one more iteration is tried
    first, and giving up the iteration is the fallback.  An iteration that
    consumes nothing ends the loop.  [fuel] bounds the iterations; the
    length of the subject plus one is always enough. *)
Fixpoint rep (m : nat → str → cont → option nat) (fuel lo : nat) (hi : option nat)
    (pos : nat) (s : str) (k : cont) : option nat :=
  match fuel with
  | O => None
  | S fuel' =>
    or_else
      (match hi with
       | Some O => None
       | _ =>
         m pos s (λ pos' s',
           if decide (pos' = pos) then None
           else rep m fuel' (pred lo) (pred <$> hi) pos' s' k)
       end)
      (match lo with O => k pos s | S _ => None end)
  end.

Fixpoint rmatch (r : regex) (pos : nat) (s : str) (k : cont) : option nat :=
  match r with
  | Cls p =>
    match s with
    | c :: s' => if p c then k (S pos) s' else None
    | [] => None
    end
  | Bol => if decide (pos = O) then k pos s else None
  | Eol => if at_end s then k pos s else None
  | Cat r1 r2 => rmatch r1 pos s (λ pos' s', rmatch r2 pos' s' k)
  | Alt r1 r2 => or_else (rmatch r1 pos s k) (rmatch r2 pos s k)
  | Rep lo hi r => rep (rmatch r) (S (length s)) lo hi pos s k
  end.

(** [re.search]: the first start position, from the left, at which the
    pattern matches; the result is the span of the match. *)
Fixpoint search_from (r : regex) (pos : nat) (s : str) : option (nat * nat) :=
  match rmatch r pos s (λ e _, Some e) with
  | Some e => Some (pos, e)
  | None =>
    match s with
    | [] => None
    | _ :: s' => search_from r (S pos) s'
    end
  end.

Definition search (r : regex) (s : str) : option (nat * nat) := search_from r 0 s.

(** [match.group(0)] *)
Definition group0 (s : str) (span : nat * nat) : str :=
  take (span.2 - span.1) (drop span.1 s).

(** What a pattern denotes: [matches r pos s rest] says that [r] can
    consume exactly [s] at position [pos] when [rest] follows.  A repetition
    is a chain of non-empty iterations. *)
Inductive repeats (body : nat → str → str → Prop)
  : nat → option nat → nat → str → str → Prop :=
| repeats_stop hi pos rest : repeats body 0 hi pos [] rest
| repeats_more lo hi pos s1 s2 rest :
    hi ≠ Some O → s1 ≠ [] →
    body pos s1 (s2 ++ rest) →
    repeats body (pred lo) (pred <$> hi) (pos + length s1) s2 rest →
    repeats body lo hi pos (s1 ++ s2) rest.

Fixpoint matches (r : regex) (pos : nat) (s rest : str) : Prop :=
  match r with
  | Cls p => ∃ c, s = [c] ∧ p c = true
  | Bol => pos = O ∧ s = []
  | Eol => s = [] ∧ at_end rest = true
  | Cat r1 r2 =>
    ∃ s1 s2, s = s1 ++ s2 ∧ matches r1 pos s1 (s2 ++ rest)
             ∧ matches r2 (pos + length s1) s2 rest
  | Alt r1 r2 => matches r1 pos s rest ∨ matches r2 pos s rest
  | Rep lo hi r => repeats (matches r) lo hi pos s rest
  end.

End Regex.

(** ** Exceptions *)

Definition msg_title : string := "Недопустимое название книги".
Definition msg_year_int : string := "Год должен быть целым числом.".
Definition msg_year_range : string :=
  "Год должен быть положительным числом и не превышать текущий год.".
Definition msg_author : string :=
  "Недопустимое имя автора. Ожидается строка с буквами, пробелами или дефисами.".
Definition msg_unpack_few : string := "not enough values to unpack".
Definition msg_unpack_many : string := "too many values to unpack".

Inductive exn : Type :=
| ValueError (msg : string)
| TypeError
| IndexError
| NotFoundInTheLibrary
| IncorrectSearchFields
| AlreadyInTheLibrary.

Inductive result (A : Type) : Type :=
| Ok (a : A)
| Raise (e : exn).
Arguments Ok {A} a.
Arguments Raise {A} e.

#[global] Instance result_ret : MRet result := λ A a, Ok a.
#[global] Instance result_bind : MBind result := λ A B f m,
  match m with Ok a => f a | Raise e => Raise e end.
#[global] Instance result_fmap : FMap result := λ A B f m,
  match m with Ok a => Ok (f a) | Raise e => Raise e end.

(** ** Values of the dictionaries and of the arguments *)

Import PyStr.

Inductive value : Type :=
| VInt (z : Z)
| VStr (s : str)
| VNone.

(** [==] between values: an integer never equals a string. *)
Definition py_eq (a b : value) : bool :=
  match a, b with
  | VInt x, VInt y => bool_decide (x = y)
  | VStr x, VStr y => bool_decide (x = y)
  | VNone, VNone => true
  | _, _ => false
  end.

(** [int(x)] *)
Definition int (x : value) : result Z :=
  match x with
  | VInt z => Ok z
  | VStr s =>
    match int_of_str s with
    | Some z => Ok z
    | None => Raise (ValueError "invalid literal for int() with base 10")
    end
  | VNone => Raise TypeError
  end.

(** Sequence operations with Python's indices: a negative index counts from
    the end, and an index out of range is an [IndexError]. *)
Definition norm_index {A} (l : list A) (i : Z) : option nat :=
  let n := Z.of_nat (length l) in
  let j := if decide (i < 0)%Z then (i + n)%Z else i in
  if decide (0 ≤ j < n)%Z then Some (Z.to_nat j) else None.

Definition getitem {A} (l : list A) (i : Z) : result A :=
  match norm_index l i ≫= (l !!.) with
  | Some x => Ok x
  | None => Raise IndexError
  end.

Definition setitem {A} (l : list A) (i : Z) (x : A) : result (list A) :=
  match norm_index l i with
  | Some j => Ok (<[j:=x]> l)
  | None => Raise IndexError
  end.

(** [l.pop(i)], keeping the list that is left *)
Definition pop {A} (l : list A) (i : Z) : result (list A) :=
  match norm_index l i with
  | Some j => Ok (delete j l)
  | None => Raise IndexError
  end.

(** ** class Book *)

Module Book.
Import Regex.

Notation "r1 ⊙ r2" := (Cat r1 r2) (at level 60, right associativity).
Notation "r1 ⊕ r2" := (Alt r1 r2) (at level 70, right associativity).

Definition one_of (s : string) (c : N) : bool := bool_decide (c ∈ py s).

(** [[A-Za-zА-Яа-яЁё]] *)
Definition letter (c : N) : bool :=
  in_range 0x41 0x5A c || in_range 0x61 0x7A c
  || in_range 0x410 0x42F c || in_range 0x430 0x44F c
  || (c =? 0x401) || (c =? 0x451).

(** The punctuation of both title classes: . , ; : ! ? ( ) ' and the
    double quote and the hyphen. *)
Definition punctuation (c : N) : bool :=
  one_of ".,;:!?()'-" c || (c =? 0x22).

Definition title_tail (c : N) : bool :=
  letter c || in_range 0x30 0x39 c || is_space c || punctuation c.

Definition title_text (c : N) : bool :=
  letter c || is_space c || punctuation c.

Definition title_regex : regex :=
      (Bol ⊙ Rep 2 (Some 2%nat) (Cls letter) ⊙ Rep 0 None (Cls title_tail) ⊙ Eol)
  ⊕ (Bol ⊙ Rep 1 (Some 4%nat) (Cls is_decimal) ⊙ Rep 1 None (Cls title_text) ⊙ Eol)
  ⊕ (Bol ⊙ Rep 4 (Some 4%nat) (Cls is_decimal) ⊙ Eol).

(** [['\-\s]] *)
Definition author_sep (c : N) : bool :=
  (c =? 0x27) || (c =? 0x2D) || is_space c.

Definition author_regex : regex :=
      (Bol ⊙ Rep 2 None (Cls letter)
           ⊙ Rep 1 None (Cls author_sep ⊙ Rep 1 None (Cls letter)) ⊙ Eol)
  ⊕ (Bol ⊙ Rep 5 None (Cls letter) ⊙ Eol).

(** The dictionary [to_dict] builds, which is also the shape of the
    entries of the store. *)
Record book : Type := Build {
  id : Z;
  title : str;
  author : str;
  year : Z;
  status : str
}.

(** [book.get(key)] *)
Definition get (b : book) (key : str) : value :=
  if decide (key = py "id") then VInt (id b)
  else if decide (key = py "title") then VStr (title b)
  else if decide (key = py "author") then VStr (author b)
  else if decide (key = py "year") then VInt (year b)
  else if decide (key = py "status") then VStr (status b)
  else VNone.

Definition _validate_title (title : str) : result str :=
  match search title_regex title with
  | Some m =>
    if decide (group0 title m = title) then Ok (str_title (str_strip title))
    else Raise (ValueError msg_title)
  | None => Raise (ValueError msg_title)
  end.

Section Today.
(** [date.today().year] *)
Variable today_year : Z.

Definition _validate_year (year : value) : result Z :=
  match int year with
  | Ok year =>
    if decide (year ≤ 0 ∨ year > today_year)%Z
    then Raise (ValueError msg_year_range)
    else Ok year
  | Raise (ValueError _) => Raise (ValueError msg_year_int)
  | Raise e => Raise e
  end.

Definition _validate_author (author : str) : result str :=
  match search author_regex author with
  | Some m =>
    if decide (group0 author m = author) then Ok (str_title (str_strip author))
    else Raise (ValueError msg_author)
  | None => Raise (ValueError msg_author)
  end.

(** [Book(last_added_book_id, title, author, year).to_dict()] *)
Definition __init__ (last_added_book_id : Z) (title author : str) (year : value)
  : result book :=
  let _id := (last_added_book_id + 1)%Z in
  _title ← _validate_title title;
  _author ← _validate_author author;
  _year ← _validate_year year;
  Ok (Build _id _title _author _year (py "В наличии")).

End Today.

End Book.

(** ** class LibraryManager

    [self.library.books_data] is the catalogue; an operation that mutates
    it returns the new catalogue, and one that raises leaves it as it was. *)

Module LibraryManager.
Import Book.

Local Open Scope Z_scope.

Abbreviation books_data := (list book).

(** [_find_book_in_the_library]: the [while] loop, by well-founded
    recursion on the width of the interval that is left. *)
Equations? find_loop (books : books_data) (book_id : Z) (return_index : bool)
    (low_bound high_bound : Z) : result Z
  by wf (Z.to_nat (high_bound - low_bound + 1)) lt :=
find_loop books book_id return_index low_bound high_bound
  with decide (low_bound ≤ high_bound) => {
  | right _ => Ok (-1)
  | left _ with getitem books ((low_bound + high_bound) `div` 2) => {
    | Raise e => Raise e
    | Ok book with decide (id book = book_id) => {
      | left _ =>
        if return_index then Ok ((low_bound + high_bound) `div` 2)
        else Ok (id book)
      | right _ with decide (id book > book_id) => {
        | left _ =>
          find_loop books book_id return_index
            low_bound ((low_bound + high_bound) `div` 2 - 1)
        | right _ =>
          find_loop books book_id return_index
            ((low_bound + high_bound) `div` 2 + 1) high_bound } } } }.
Proof.
  all: pose proof (Z.div_mod (low_bound + high_bound) 2 ltac:(lia));
       pose proof (Z.mod_pos_bound (low_bound + high_bound) 2 ltac:(lia)); lia.
Qed.

Definition _find_book_in_the_library (books : books_data) (book_id : Z)
    (return_index : bool) : result Z :=
  find_loop books book_id return_index 0 (Z.of_nat (length books) - 1).

(** [_search_books_by]: the result is the list that is returned when
    [return_book_obj] is set and the list that is printed when it is not. *)
Definition _search_books_by (books : books_data) (search_query : str)
    (return_book_obj : bool) : result (list book) :=
  match str_split (py " = ") search_query with
  | Some [search_field; search_value] =>
    let search_field := str_strip (str_lower search_field) in
    let search_value := str_strip (str_title search_value) in
    if bool_decide (search_field ∈ [py "title"; py "author"; py "year"]) then
      let search_results :=
        filter (λ book, py_eq (get book search_field) (VStr search_value) = true) books in
      match search_results with
      | _ :: _ => Ok search_results
      | [] => if return_book_obj then Ok [] else Raise NotFoundInTheLibrary
      end
    else Raise IncorrectSearchFields
  | Some ([] | [_]) => Raise (ValueError msg_unpack_few)
  | Some (_ :: _ :: _ :: _) => Raise (ValueError msg_unpack_many)
  | None => Raise (ValueError "empty separator")
  end.

Section Today.
Variable today_year : Z.

Definition _add_book (books : books_data) (title author : str) (year : value)
  : result books_data :=
  last_added_book_id ←
    match books with
    | _ :: _ => id <$> getitem books (-1)
    | [] => Ok 0
    end;
  new_book ← __init__ today_year last_added_book_id title author year;
  books_in_library_with_the_same_author ←
    _search_books_by books (py "author = " ++ Book.author new_book) true;
  if bool_decide (Exists (λ book,
         py_eq (get book (py "title")) (VStr (Book.title new_book)) = true
       ∧ py_eq (get book (py "year")) (VInt (Book.year new_book)) = true)
       books_in_library_with_the_same_author)
  then Raise AlreadyInTheLibrary
  else Ok (books ++ [new_book]).

End Today.

Definition _delete_book (books : books_data) (book_id : Z) : result books_data :=
  book_index ← _find_book_in_the_library books book_id true;
  if decide (book_index = -1) then Raise NotFoundInTheLibrary
  else pop books book_index.

Definition set_status (b : book) (s : str) : book :=
  Build (id b) (title b) (author b) (year b) s.

Definition _change_book_status (books : books_data) (book_id : Z) : result books_data :=
  book_index ← _find_book_in_the_library books book_id true;
  if decide (book_index = -1) then Raise NotFoundInTheLibrary
  else
    book ← getitem books book_index;
    if decide (status book = py "В наличии")
    then setitem books book_index (set_status book (py "Выдана"))
    else setitem books book_index (set_status book (py "В наличии")).

End LibraryManager.

(** ** Specification predicates *)

Import PyStr Regex Book LibraryManager.
Local Open Scope Z_scope.

(** The invariant of the catalogue: ids strictly ascending along the list. *)
Definition ids_ascending (books : books_data) : Prop :=
  ∀ (i j : nat) bi bj, books !! i = Some bi → books !! j = Some bj →
    (i < j)%nat → id bi < id bj.

(** The two status labels. *)
Definition AVAILABLE : str := py "В наличии".
Definition CHECKED_OUT : str := py "Выдана".

(** What the toggle writes for a status it reads. *)
Definition toggled (s : str) : str :=
  if decide (s = AVAILABLE) then CHECKED_OUT else AVAILABLE.

(** A matcher [m] is sound for a denotation when each success comes from a
    split of the subject that the denotation admits and on which the
    continuation gave that result; it is complete when such a split makes
    it succeed. *)
Definition sound_for (m : nat → str → cont → option nat)
    (body : nat → str → str → Prop) : Prop :=
  ∀ pos s k e, m pos s k = Some e →
    ∃ s1 s2, s = s1 ++ s2 ∧ body pos s1 s2 ∧ k (pos + length s1)%nat s2 = Some e.

Definition complete_for (m : nat → str → cont → option nat)
    (body : nat → str → str → Prop) : Prop :=
  ∀ pos s1 s2 k e, body pos s1 s2 → k (pos + length s1)%nat s2 = Some e →
    ∃ e', m pos (s1 ++ s2) k = Some e'.

(** One later group of the author pattern: a separator and a name. *)
Definition group_regex : regex := Cls author_sep ⊙ Rep 1 None (Cls letter).

(** [match and match.group(0) == s]: the search finds a match and the
    match is the whole subject. *)
Definition matches_whole (r : regex) (s : str) : Prop :=
  ∃ m, search r s = Some m ∧ group0 s m = s.

(** A pattern that can only match at the start of the subject. *)
Definition anchored (r : regex) : Prop :=
  ∀ pos s1 s2, matches r pos s1 s2 → pos = O.

(** [str.rstrip], the second half of [strip_by]. *)
Definition rstrip_by (space : N → bool) (s : str) : str :=
  rev (lstrip_by space (rev s)).

(** Strings that hold no equals sign, so that a query built from them
    splits in two. *)
Definition no_eq (s : str) : Prop := Forall (λ c, c ≠ 0x3D%N) s.

(** The id that [_add_book] hands to [Book]. *)
Definition last_id (books : books_data) : Z :=
  match list.last books with Some b => id b | None => 0 end.

(** The shape of the strings the author pattern admits: five or more
    letters, or a first name of two or more letters followed by one or more
    groups, each a separator (apostrophe, hyphen or whitespace character)
    and a name of one or more letters. *)
Definition author_group (g : str) : Prop :=
  ∃ sep name, g = sep :: name ∧ author_sep sep = true
              ∧ name ≠ [] ∧ Forall (λ c, letter c = true) name.

Definition author_shape (a : str) : Prop :=
  ((5 ≤ length a)%nat ∧ Forall (λ c, letter c = true) a)
  ∨ ∃ first groups,
      a = first ++ concat groups
      ∧ (2 ≤ length first)%nat ∧ Forall (λ c, letter c = true) first
      ∧ groups ≠ [] ∧ Forall author_group groups.

(** The author rule in the words of the specification: one run of five or
    more letters, or two or more groups of two or more letters joined by
    single hyphens or spaces. *)
Definition spec_sep (c : N) : bool := (c =? 0x2D)%N || (c =? 0x20)%N.

Fixpoint groups_from (group : str) (s : str) : list str :=
  match s with
  | [] => [rev group]
  | c :: s' =>
    if spec_sep c then rev group :: groups_from [] s'
    else groups_from (c :: group) s'
  end.

Definition author_spec (a : str) : bool :=
  match groups_from [] a with
  | [g] => (5 <=? length g)%nat && forallb letter g
  | gs => forallb (λ g, (2 <=? length g)%nat && forallb letter g) gs
  end.

(** Sample records. *)
Definition book1 : book := Build 1 (py "Book") (py "Homer") 2000 AVAILABLE.
Definition book3 : book := Build 3 (py "If") (py "Li Bai") 1500 CHECKED_OUT.
Definition book4 : book := Build 4 (py "1984") (py "George Orwell") 1949 (py "lost").

(** ** Further predicates and the console *)

(** Author, title and year of a record, the key of the duplicate check. *)
Definition triple (b : book) : str * str * Z :=
  (Book.author b, Book.title b, Book.year b).

(** No two records share author, title and year. *)
Definition triples_unique (books : books_data) : Prop := NoDup (triple <$> books).

(** [sep.join(pieces)] *)
Fixpoint str_join (sep : str) (pieces : list str) : str :=
  match pieces with
  | [] => []
  | [p] => p
  | p :: ps => p ++ sep ++ str_join sep ps
  end.

(** A record as [Book] builds it and the toggle keeps it: a title that
    starts with a letter or a digit and has no whitespace at either end, an
    author of the admitted shape in title case, a year from 1 to the current
    one, and one of the two status labels. *)
Definition well_formed (today_year : Z) (b : book) : Prop :=
  (∃ c rest, Book.title b = c :: rest ∧ (letter c = true ∨ is_decimal c = true))
  ∧ str_strip (Book.title b) = Book.title b
  ∧ author_shape (Book.author b)
  ∧ str_title (Book.author b) = Book.author b
  ∧ 0 < Book.year b ≤ today_year
  ∧ (status b = AVAILABLE ∨ status b = CHECKED_OUT).

(** Two characters of the same class for the author pattern: title-casing
    changes neither which characters are letters nor which are separators. *)
Definition same_class (c c' : N) : Prop :=
  letter c' = letter c ∧ author_sep c' = author_sep c.

(** Strings that hold no comma, so that a line built from them splits
    into them. *)
Definition no_comma (s : str) : Prop := Forall (λ c, c ≠ 0x2C%N) s.

(** A set of catalogues that the three mutating operations do not leave. *)
Definition closed (today_year : Z) (P : books_data → Prop) : Prop :=
  ∀ books, P books →
    (∀ title author year books',
       _add_book today_year books title author year = Ok books' → P books')
    ∧ (∀ book_id books', _delete_book books book_id = Ok books' → P books')
    ∧ (∀ book_id books', _change_book_status books book_id = Ok books' → P books').

(** ** class Library and the console loops

    The file [app/library.json] is either absent, unreadable as JSON, or
    the JSON of a catalogue, and writing it does not fail.  [input] reads
    the next line of a list of lines, and its end is an [EOFError]; [print]
    appends to a log, which records which message is written, not its
    text. *)

Module Console.

Inductive file : Type :=
| NoFile
| Corrupt
| Json (books : books_data).

(** The loop that is reading input. *)
Inductive mode : Type := Menu | Adding | Deleting | Changing | Searching.

Inductive message : Type :=
| LoadError
| MenuShown
| Prompt (m : mode)
| ErrorRetry (e : exn)
| AddFormatError
| IdNotInteger
| SearchFormatError
| BookAdded
| BookDeleted
| StatusChanged
| Listing (books : books_data)
| SearchResults (results : list book)
| Exiting.

Record session : Type := Session {
  books : books_data;
  store : file;
  out : list message
}.

Definition print (m : message) (s : session) : session :=
  Session (books s) (store s) (out s ++ [m]).

(** [_update_data(books_data)] rewrites the whole file. *)
Definition _update_data (books_data : books_data) (s : session) : session :=
  Session (books s) (Json books_data) (out s).

Definition set_books (books_data : books_data) (s : session) : session :=
  Session books_data (store s) (out s).

(** [Library.__post_init__], and so [LibraryManager()]: the catalogue is what
    the file decodes to; a file that does not decode is reported and gives
    the empty catalogue; an absent file is created holding the empty list. *)
Definition __post_init__ (f : file) : session :=
  match f with
  | Json data => Session data f []
  | Corrupt => print LoadError (Session [] f [])
  | NoFile => Session [] (Json []) []
  end.

Inductive error : Type :=
| Core (e : exn)
| EOFError.

Definition msg_choice : string := "
Некорректный ввод, попробуйте снова.".

(** How one iteration of a loop ends: the next read happens in loop [m]
    ([Continue m]; for a handler, [Continue Menu] is its [break]), the
    program exits, or an exception leaves [run]. *)
Inductive next : Type :=
| Continue (m : mode)
| Exit
| Crash (e : error).

Section Today.
Variable today_year : Z.

(** One iteration of the loop of [handle_add_book] on the line read. *)
Definition handle_add_book (new_book_data : str) (s : session) : next * session :=
  if decide (new_book_data = py "-1") then (Continue Menu, s)
  else
    match str_split (py ", ") new_book_data with
    | Some [title; author; year] =>
      match _add_book today_year (books s) title author (VStr year) with
      | Ok books' =>
        (Continue Menu, print BookAdded (_update_data books' (set_books books' s)))
      | Raise (ValueError msg) =>
        (Continue Adding, print (ErrorRetry (ValueError msg)) s)
      | Raise AlreadyInTheLibrary =>
        (Continue Adding, print (ErrorRetry AlreadyInTheLibrary) s)
      | Raise TypeError => (Continue Adding, print AddFormatError s)
      | Raise e => (Crash (Core e), s)
      end
    | _ =>
      (* [_add_book] called with other than three arguments: a TypeError *)
      (Continue Adding, print AddFormatError s)
    end.

End Today.

(** One iteration of the loop of [handle_delete_book]. *)
Definition handle_delete_book (delete_book_id : str) (s : session) : next * session :=
  if decide (delete_book_id = py "-1") then (Continue Menu, s)
  else
    match int (VStr delete_book_id) ≫= _delete_book (books s) with
    | Ok books' =>
      (Continue Menu, print BookDeleted (_update_data books' (set_books books' s)))
    | Raise (ValueError _) => (Continue Deleting, print IdNotInteger s)
    | Raise NotFoundInTheLibrary =>
      (Continue Deleting, print (ErrorRetry NotFoundInTheLibrary) s)
    | Raise e => (Crash (Core e), s)
    end.

(** One iteration of the loop of [handle_change_status]. *)
Definition handle_change_status (book_id : str) (s : session) : next * session :=
  if decide (book_id = py "-1") then (Continue Menu, s)
  else
    match int (VStr book_id) ≫= _change_book_status (books s) with
    | Ok books' =>
      (Continue Menu, print StatusChanged (_update_data books' (set_books books' s)))
    | Raise (ValueError _) => (Continue Changing, print IdNotInteger s)
    | Raise NotFoundInTheLibrary =>
      (Continue Changing, print (ErrorRetry NotFoundInTheLibrary) s)
    | Raise e => (Crash (Core e), s)
    end.

Definition handle_list_books (s : session) : session := print (Listing (books s)) s.

(** One iteration of the loop of [handle_search_books]. *)
Definition handle_search_books (search_query : str) (s : session) : next * session :=
  if decide (search_query = py "-1") then (Continue Menu, s)
  else
    match _search_books_by (books s) search_query false with
    | Ok results => (Continue Menu, print (SearchResults results) s)
    | Raise IncorrectSearchFields =>
      (Continue Searching, print (ErrorRetry IncorrectSearchFields) s)
    | Raise NotFoundInTheLibrary =>
      (Continue Searching, print (ErrorRetry NotFoundInTheLibrary) s)
    | Raise (ValueError _) => (Continue Searching, print SearchFormatError s)
    | Raise e => (Crash (Core e), s)
    end.

Definition handle_exit (s : session) : session := print Exiting s.

(** One iteration of the loop of [run] on the line read: the choice is
    stripped and looked up among the values of [MenuOptions]. *)
Definition menu (line : str) (s : session) : next * session :=
  let choice := str_strip line in
  if decide (choice = py "1") then (Continue Adding, s)
  else if decide (choice = py "2") then (Continue Deleting, s)
  else if decide (choice = py "3") then (Continue Changing, s)
  else if decide (choice = py "4") then (Continue Menu, handle_list_books s)
  else if decide (choice = py "5") then (Continue Searching, s)
  else if decide (choice = py "0") then (Exit, handle_exit s)
  else (Crash (Core (ValueError msg_choice)), s).

Definition iteration (today_year : Z) (m : mode) (line : str) (s : session)
  : next * session :=
  match m with
  | Menu => menu line s
  | Adding => handle_add_book today_year line s
  | Deleting => handle_delete_book line s
  | Changing => handle_change_status line s
  | Searching => handle_search_books line s
  end.

(** How [run] ends. *)
Inductive ending : Type :=
| Exited
| Crashed (e : error).

(** The loops, from the loop [m] on: each [input] first writes the menu
    or the prompt of the loop, then takes the next line. *)
Fixpoint run_from (today_year : Z) (m : mode) (inputs : list str) (s : session)
  : ending * session :=
  let s := print (match m with Menu => MenuShown | _ => Prompt m end) s in
  match inputs with
  | [] => (Crashed EOFError, s)
  | line :: rest =>
    match iteration today_year m line s with
    | (Continue m', s') => run_from today_year m' rest s'
    | (Exit, s') => (Exited, s')
    | (Crash e, s') => (Crashed e, s')
    end
  end.

(** [LibraryManager().run()] *)
Definition run (today_year : Z) (f : file) (inputs : list str) : ending * session :=
  run_from today_year Menu inputs (__post_init__ f).

End Console.

(** * Properties *)

(** ** Worked examples *)

Example ex_split_query : str_split (py " = ") (py "author = Ivan Ivanov") = Some [py "author"; py "Ivan Ivanov"].
Proof. reflexivity. Qed.
Example ex_split_tail : str_split (py " = ") (py "a =  = b = ") = Some [py "a"; py ""; py "b"; py ""].
Proof. reflexivity. Qed.
Example ex_title_ex : str_title (py "jean-pierre o'neil 12 стульев ёж") = py "Jean-Pierre O'Neil 12 Стульев Ёж".
Proof. reflexivity. Qed.
Example ex_strip_ex : str_strip (py "  ab c  ") = py "ab c".
Proof. reflexivity. Qed.
Example ex_int_ex1 : int_of_str (py " 1_984 ") = Some 1984%Z.
Proof. reflexivity. Qed.
Example ex_int_ex2 : int_of_str (py "-5") = Some (-5)%Z.
Proof. reflexivity. Qed.
Example ex_int_ex3 : int_of_str (py "1__0") = None ∧ int_of_str (py "- 5") = None
  ∧ int_of_str (py "") = None ∧ int_of_str (py "0.2") = None
  ∧ int_of_str (py "_1") = None ∧ int_of_str (py "1_") = None.
Proof. repeat split; reflexivity. Qed.
Example ex_title_1984 : _validate_title (py "1984") = Ok (py "1984").
Proof. vm_compute. reflexivity. Qed.
Example ex_author_homer : _validate_author (py "homer") = Ok (py "Homer").
Proof. vm_compute. reflexivity. Qed.
Example ex_find_ex : _find_book_in_the_library [book1; book3] 3 true = Ok 1
  ∧ _find_book_in_the_library [book1; book3] 2 true = Ok (-1).
Proof. split; reflexivity. Qed.
Example ex_add_ex : ∃ l, _add_book 2024 [book1; book3] (py "war and peace") (py "leo tolstoy") (VStr (py "1869")) = Ok l.
Proof. eexists. vm_compute. reflexivity. Qed.

(** ** Sequences *)

Lemma norm_index_nat {A} (l : list A) (i : nat) :
  (i < length l)%nat → norm_index l (Z.of_nat i) = Some i.
Proof.
  intros Hi. unfold norm_index.
  destruct (decide (Z.of_nat i < 0)); [lia|].
  rewrite decide_True by lia. by rewrite Nat2Z.id.
Qed.

Lemma norm_index_inv {A} (l : list A) (i : Z) (j : nat) :
  norm_index l i = Some j → (j < length l)%nat.
Proof.
  unfold norm_index. intros H. repeat case_decide; simplify_eq; lia.
Qed.

Lemma getitem_nonneg {A} (l : list A) (i : Z) :
  0 ≤ i →
  getitem l i = match l !! Z.to_nat i with Some x => Ok x | None => Raise IndexError end.
Proof.
  intros Hi. unfold getitem, norm_index.
  destruct (decide (i < 0)); [lia|].
  destruct (decide (0 ≤ i < Z.of_nat (length l))) as [Hr|Hr]; simpl.
  - reflexivity.
  - rewrite lookup_ge_None_2; [reflexivity | lia].
Qed.

Lemma getitem_nat {A} (l : list A) (i : nat) (x : A) :
  l !! i = Some x → getitem l (Z.of_nat i) = Ok x.
Proof.
  intros Hi. rewrite getitem_nonneg by lia. by rewrite Nat2Z.id, Hi.
Qed.

(** [l[-1]] is the last element. *)
Lemma getitem_last {A} (l : list A) (x : A) : getitem (l ++ [x]) (-1) = Ok x.
Proof.
  unfold getitem, norm_index. rewrite length_app. simpl.
  destruct (decide (-1 < 0)); [|lia].
  destruct (decide (0 ≤ -1 + Z.of_nat (length l + 1) < Z.of_nat (length l + 1))); [|lia].
  simpl.
  replace (Z.to_nat (-1 + Z.of_nat (length l + 1))) with (length l + 0)%nat by lia.
  by rewrite lookup_app_r, Nat.add_0_r, Nat.sub_diag by lia.
Qed.

(** ** The invariant *)

Lemma ids_ascending_nil : ids_ascending [].
Proof. intros i j bi bj Hi. by rewrite lookup_nil in Hi. Qed.

Lemma ids_ascending_delete books i :
  ids_ascending books → ids_ascending (delete i books).
Proof.
  intros Hasc j k bj bk Hj Hk Hjk.
  destruct (decide (j < i)%nat); destruct (decide (k < i)%nat);
    repeat match goal with
    | H : delete _ _ !! ?n = _, Hlt : (?n < _)%nat |- _ =>
      rewrite list_lookup_delete_lt in H by exact Hlt
    | H : delete _ _ !! ?n = _ |- _ => rewrite list_lookup_delete_ge in H by lia
    end;
    eapply Hasc; eauto; lia.
Qed.

Lemma ids_ascending_insert books i b b' :
  ids_ascending books → books !! i = Some b → id b' = id b →
  ids_ascending (<[i:=b']> books).
Proof.
  intros Hasc Hi Hid j k bj bk Hj Hk Hjk.
  apply list_lookup_insert_Some in Hj as [(-> & -> & _)|[Hne Hj]];
    apply list_lookup_insert_Some in Hk as [(-> & -> & _)|[Hne' Hk]];
    rewrite ?Hid; try lia; eapply Hasc; eauto.
Qed.

Lemma ids_ascending_snoc books b :
  ids_ascending books → (∀ b', b' ∈ books → id b' < id b) →
  ids_ascending (books ++ [b]).
Proof.
  intros Hasc Hmax j k bj bk Hj Hk Hjk.
  apply lookup_snoc_Some in Hj as [[Hlj Hj]|[-> ->]];
    apply lookup_snoc_Some in Hk as [[Hlk Hk]|[-> ->]].
  - eapply Hasc; eauto.
  - apply Hmax. by eapply list_elem_of_lookup_2.
  - lia.
  - lia.
Qed.

(** In an ascending catalogue the last record has the largest id. *)
Lemma ids_ascending_last books b b' :
  ids_ascending (books ++ [b]) → b' ∈ books → id b' < id b.
Proof.
  intros Hasc [i Hi]%list_elem_of_lookup_1.
  apply (Hasc i (length books) b' b).
  - by apply lookup_app_l_Some.
  - by rewrite lookup_app_r, Nat.sub_diag.
  - by eapply lookup_lt_Some.
Qed.

Lemma ids_ascending_NoDup books : ids_ascending books → NoDup (id <$> books).
Proof.
  intros Hasc. apply NoDup_alt. intros i j x Hi Hj.
  apply list_lookup_fmap_Some in Hi as (bi & -> & Hi).
  apply list_lookup_fmap_Some in Hj as (bj & Heq & Hj).
  destruct (Nat.lt_trichotomy i j) as [Hlt|[Heq'|Hgt]]; [|done|].
  - pose proof (Hasc _ _ _ _ Hi Hj Hlt). lia.
  - pose proof (Hasc _ _ _ _ Hj Hi Hgt). lia.
Qed.

(** ** Binary search *)

Lemma mid_bounds lo hi : lo ≤ hi → lo ≤ (lo + hi) `div` 2 ≤ hi.
Proof.
  intros. pose proof (Z.div_mod (lo + hi) 2 ltac:(lia)).
  pose proof (Z.mod_pos_bound (lo + hi) 2 ltac:(lia)). lia.
Qed.

(** Reads [books[mid]] in a hypothesis, [mid] being inside the list. *)
Ltac at_mid :=
  lazymatch goal with
  | H : getitem ?books ((?lo + ?hi) `div` 2) = _ |- _ =>
    let Hm := fresh "Hm" in
    assert (lo ≤ (lo + hi) `div` 2 ≤ hi) as Hm by (apply mid_bounds; lia);
    rewrite getitem_nonneg in H by lia;
    let E := fresh "E" in
    destruct (books !! Z.to_nat ((lo + hi) `div` 2)) eqn:E;
    [ | apply lookup_ge_None_1 in E; lia ]; simplify_eq
  end.

(** The loop, started on a window that holds every position of the id
    looked for, ends on the position of that id, or on -1 when no record
    has it. *)
Lemma find_loop_spec books book_id lo hi :
  ids_ascending books → 0 ≤ lo → hi < Z.of_nat (length books) →
  (∀ (i : nat) b, books !! i = Some b → id b = book_id → lo ≤ Z.of_nat i ≤ hi) →
  (∀ (i : nat) b, books !! i = Some b → id b = book_id →
     find_loop books book_id true lo hi = Ok (Z.of_nat i))
  ∧ ((∀ b, b ∈ books → id b ≠ book_id) →
     find_loop books book_id true lo hi = Ok (-1)).
Proof.
  intros Hasc. remember true as ri eqn:Hri. revert Hri.
  funelim (find_loop books book_id ri lo hi); intros -> Hlo Hhi Hwin.
  - (* the window is empty *)
    split; [|done]. intros i b Hi Hb. specialize (Hwin i b Hi Hb). lia.
  - (* books[mid] cannot raise *)
    exfalso. at_mid.
  - (* found at mid *)
    at_mid. split.
    + intros i b' Hi Hb'. f_equal.
      destruct (decide (i = Z.to_nat ((low_bound + high_bound) `div` 2))) as [->|Hne]; [lia|].
      exfalso.
      destruct (decide (i < Z.to_nat ((low_bound + high_bound) `div` 2))%nat).
      * pose proof (Hasc _ _ _ _ Hi E ltac:(lia)). lia.
      * pose proof (Hasc _ _ _ _ E Hi ltac:(lia)). lia.
    + intros Hno. exfalso. eapply Hno; [|done]. by eapply list_elem_of_lookup_2.
  - (* the id at mid is larger: continue on the left *)
    at_mid. apply H; [done|done|lia|lia|].
    intros i b' Hi Hb'. specialize (Hwin i b' Hi Hb').
    destruct (decide (Z.of_nat i < (low_bound + high_bound) `div` 2)); [lia|].
    exfalso.
    destruct (decide (i = Z.to_nat ((low_bound + high_bound) `div` 2))) as [->|Hne]; [simplify_eq; lia|].
    pose proof (Hasc _ _ _ _ E Hi ltac:(lia)). lia.
  - (* the id at mid is smaller: continue on the right *)
    at_mid. apply H; [done|done|lia|lia|].
    intros i b' Hi Hb'. specialize (Hwin i b' Hi Hb').
    destruct (decide ((low_bound + high_bound) `div` 2 < Z.of_nat i)); [lia|].
    exfalso.
    destruct (decide (i = Z.to_nat ((low_bound + high_bound) `div` 2))) as [->|Hne]; [simplify_eq; lia|].
    pose proof (Hasc _ _ _ _ Hi E ltac:(lia)). lia.
Qed.

Lemma find_present books (i : nat) b :
  ids_ascending books → books !! i = Some b →
  _find_book_in_the_library books (id b) true = Ok (Z.of_nat i).
Proof.
  intros Hasc Hi. unfold _find_book_in_the_library.
  eapply find_loop_spec; eauto; try lia.
  intros j b' Hj _. apply lookup_lt_Some in Hj. lia.
Qed.

Lemma find_absent books book_id :
  ids_ascending books → (∀ b, b ∈ books → id b ≠ book_id) →
  _find_book_in_the_library books book_id true = Ok (-1).
Proof.
  intros Hasc Hno. unfold _find_book_in_the_library.
  eapply find_loop_spec; eauto; try lia.
  intros j b' Hj _. apply lookup_lt_Some in Hj. lia.
Qed.

Lemma ids_ascending_sample : ids_ascending [book1; book3; book4].
Proof.
  intros [|[|[|i]]] [|[|[|j]]] bi bj Hi Hj Hij; simplify_eq/=; try lia; done.
Qed.

(** C2. In a catalogue whose ids are strictly ascending, of any size, the
    binary search used by delete and by the status toggle returns the
    position of the record with the requested id when there is one, and
    the sentinel -1 when no record has that id. *)
Theorem find_book_in_the_library_correct books book_id :
  ids_ascending books →
  (∀ (i : nat) b, books !! i = Some b → id b = book_id →
     _find_book_in_the_library books book_id true = Ok (Z.of_nat i))
  ∧ ((∀ b, b ∈ books → id b ≠ book_id) →
     _find_book_in_the_library books book_id true = Ok (-1)).
Proof.
  intros Hasc. split.
  - intros i b Hi <-. by apply find_present.
  - by apply find_absent.
Qed.

Lemma find_book_in_the_library_correct_witness :
  _find_book_in_the_library [book1; book3; book4] 3 true = Ok 1
  ∧ _find_book_in_the_library [book1; book3; book4] 2 true = Ok (-1)
  ∧ _find_book_in_the_library [] 2 true = Ok (-1).
Proof.
  split; [|split].
  - exact (proj1 (find_book_in_the_library_correct
                    [book1; book3; book4] 3 ids_ascending_sample)
                 1%nat book3 eq_refl eq_refl).
  - apply (proj2 (find_book_in_the_library_correct
                    [book1; book3; book4] 2 ids_ascending_sample)).
    intros b Hb. repeat (apply elem_of_cons in Hb as [->|Hb]); try done.
    by apply elem_of_nil in Hb.
  - apply (proj2 (find_book_in_the_library_correct [] 2 ids_ascending_nil)).
    intros b Hb. by apply elem_of_nil in Hb.
Defined.

(** ** Deleting *)

Lemma delete_book_found books (i : nat) b :
  ids_ascending books → books !! i = Some b →
  _delete_book books (id b) = Ok (delete i books).
Proof.
  intros Hasc Hi. unfold _delete_book.
  rewrite (find_present _ i) by done. simpl.
  destruct (decide (Z.of_nat i = -1)); [lia|].
  unfold pop. rewrite norm_index_nat; [done|]. by eapply lookup_lt_Some.
Qed.

Lemma delete_book_inv books book_id books' :
  _delete_book books book_id = Ok books' →
  ∃ (i : nat) b, books !! i = Some b ∧ books' = delete i books.
Proof.
  unfold _delete_book.
  destruct (_find_book_in_the_library books book_id true) as [k|]; simpl; [|done].
  destruct (decide (k = -1)); [done|]. unfold pop.
  destruct (norm_index books k) as [j|] eqn:Hj; [|done]. intros ?; simplify_eq.
  apply norm_index_inv, lookup_lt_is_Some in Hj as [b Hb]. eauto.
Qed.

(** C5. In a catalogue with strictly ascending ids that holds a record with
    the given id, delete removes that one record: the records before it and
    after it stay as they are, fields and order. *)
Theorem delete_book_removes_exactly_one before b after :
  ids_ascending (before ++ b :: after) →
  _delete_book (before ++ b :: after) (id b) = Ok (before ++ after).
Proof.
  intros Hasc.
  rewrite (delete_book_found _ (length before) b Hasc).
  - by rewrite delete_middle.
  - by rewrite list_lookup_middle.
Qed.

Lemma delete_book_removes_exactly_one_witness :
  _delete_book [book1; book3; book4] 3 = Ok [book1; book4].
Proof.
  exact (delete_book_removes_exactly_one [book1] book3 [book4] ids_ascending_sample).
Defined.

(** ** Toggling the status *)

Lemma labels_differ : CHECKED_OUT ≠ AVAILABLE.
Proof. intros H. vm_compute in H. discriminate H. Qed.

Lemma toggled_toggled s :
  s = AVAILABLE ∨ s = CHECKED_OUT → toggled (toggled s) = s.
Proof.
  pose proof labels_differ.
  intros [->| ->]; unfold toggled; repeat case_decide; congruence.
Qed.

Lemma toggled_label s : toggled s = AVAILABLE ∨ toggled s = CHECKED_OUT.
Proof. unfold toggled. case_decide; auto. Qed.

Lemma set_status_status b : set_status b (status b) = b.
Proof. by destruct b. Qed.

Lemma set_status_twice b s s' : set_status (set_status b s) s' = set_status b s'.
Proof. done. Qed.

(** The toggle on a record that the lookup finds. *)
Lemma change_book_status_found books book_id (i : nat) b :
  _find_book_in_the_library books book_id true = Ok (Z.of_nat i) →
  books !! i = Some b →
  _change_book_status books book_id
  = Ok (<[i := set_status b (toggled (status b))]> books).
Proof.
  intros Hfind Hi. unfold _change_book_status. rewrite Hfind. simpl.
  destruct (decide (Z.of_nat i = -1)); [lia|].
  rewrite (getitem_nat _ _ _ Hi). simpl.
  assert (norm_index books (Z.of_nat i) = Some i) as Hn.
  { apply norm_index_nat. by eapply lookup_lt_Some. }
  unfold toggled, AVAILABLE, setitem. rewrite Hn. by case_decide.
Qed.

Lemma change_book_status_inv books book_id books' :
  _change_book_status books book_id = Ok books' →
  ∃ (i : nat) b, books !! i = Some b
    ∧ books' = <[i := set_status b (toggled (status b))]> books.
Proof.
  unfold _change_book_status.
  destruct (_find_book_in_the_library books book_id true) as [k|]; simpl; [|done].
  destruct (decide (k = -1)); [done|].
  unfold getitem, setitem.
  destruct (norm_index books k) as [j|]; simpl; [|done].
  destruct (books !! j) as [b|] eqn:Hj; simpl; [|done].
  intros H. exists j, b. split; [done|].
  unfold toggled, AVAILABLE. case_decide; by simplify_eq.
Qed.

(** C3. For a record of the catalogue whose status is one of the two
    labels, one toggle of its id writes the other label, whatever the
    status was, and a second toggle gives back the catalogue as it was. The
    catalogue keeps its ids strictly ascending, as the data model has it. *)
Theorem change_book_status_involution books (i : nat) b :
  ids_ascending books → books !! i = Some b →
  status b = AVAILABLE ∨ status b = CHECKED_OUT →
  ∃ books1 b1,
    _change_book_status books (id b) = Ok books1
    ∧ books1 !! i = Some b1
    ∧ (status b = AVAILABLE → status b1 = CHECKED_OUT)
    ∧ (status b = CHECKED_OUT → status b1 = AVAILABLE)
    ∧ _change_book_status books1 (id b) = Ok books.
Proof.
  intros Hasc Hi Hst.
  set (b1 := set_status b (toggled (status b))).
  assert (i < length books)%nat as Hlt by by eapply lookup_lt_Some.
  exists (<[i:=b1]> books), b1. split; [|split; [|split; [|split]]].
  - apply change_book_status_found; [|done]. by apply find_present.
  - by apply list_lookup_insert_eq.
  - intros Hs. subst b1. simpl. rewrite Hs. unfold toggled. by rewrite decide_True.
  - intros Hs. subst b1. simpl. rewrite Hs. unfold toggled.
    by rewrite decide_False by apply labels_differ.
  - change (id b) with (id b1).
    rewrite (change_book_status_found _ _ i b1).
    + subst b1. simpl. rewrite set_status_twice, toggled_toggled by done.
      rewrite set_status_status, list_insert_insert_eq. by rewrite list_insert_id.
    + apply find_present; [by eapply ids_ascending_insert|].
      by apply list_lookup_insert_eq.
    + by apply list_lookup_insert_eq.
Qed.

Lemma change_book_status_involution_witness :
  ∃ books1 b1,
    _change_book_status [book1; book3; book4] 3 = Ok books1
    ∧ books1 !! 1%nat = Some b1
    ∧ (status book3 = AVAILABLE → status b1 = CHECKED_OUT)
    ∧ (status book3 = CHECKED_OUT → status b1 = AVAILABLE)
    ∧ _change_book_status books1 3 = Ok [book1; book3; book4].
Proof.
  apply (change_book_status_involution [book1; book3; book4] 1 book3).
  - exact ids_ascending_sample.
  - reflexivity.
  - right. reflexivity.
Defined.

(** C10. On a record that the lookup of the toggle finds, the toggle writes
    the checked-out label over the available label and the available label
    over every other status, so that the status it leaves is one of the two
    labels whatever it was. *)
Theorem change_book_status_total books book_id (i : nat) b :
  _find_book_in_the_library books book_id true = Ok (Z.of_nat i) →
  books !! i = Some b →
  ∃ b',
    _change_book_status books book_id = Ok (<[i:=b']> books)
    ∧ b' = set_status b (status b')
    ∧ (status b = AVAILABLE → status b' = CHECKED_OUT)
    ∧ (status b ≠ AVAILABLE → status b' = AVAILABLE)
    ∧ (status b' = AVAILABLE ∨ status b' = CHECKED_OUT).
Proof.
  intros Hfind Hi. exists (set_status b (toggled (status b))).
  split; [by apply change_book_status_found|]. simpl.
  split; [done|]. unfold toggled.
  split; [|split].
  - intros ->. by rewrite decide_True.
  - intros Hne. by rewrite decide_False.
  - case_decide; auto.
Qed.

Lemma change_book_status_total_witness :
  ∃ b',
    _change_book_status [book1; book3; book4] 4 = Ok (<[2%nat:=b']> [book1; book3; book4])
    ∧ b' = set_status book4 (status b')
    ∧ (status book4 = AVAILABLE → status b' = CHECKED_OUT)
    ∧ (status book4 ≠ AVAILABLE → status b' = AVAILABLE)
    ∧ (status b' = AVAILABLE ∨ status b' = CHECKED_OUT).
Proof.
  apply (change_book_status_total [book1; book3; book4] 4 2 book4); reflexivity.
Defined.

(** ** Adding *)

Lemma add_book_last_id books :
  match books with
  | _ :: _ => id <$> getitem books (-1)
  | [] => Ok 0
  end = Ok (last_id books).
Proof.
  destruct books as [|x l _] using rev_ind; [done|].
  unfold last_id. rewrite last_snoc, getitem_last. by destruct l.
Qed.

Lemma init_inv today last title author year b :
  __init__ today last title author year = Ok b →
  id b = last + 1
  ∧ _validate_title title = Ok (Book.title b)
  ∧ _validate_author author = Ok (Book.author b)
  ∧ _validate_year today year = Ok (Book.year b)
  ∧ status b = AVAILABLE.
Proof.
  unfold __init__.
  destruct (_validate_title title); simpl; [|done].
  destruct (_validate_author author); simpl; [|done].
  destruct (_validate_year today year); simpl; [|done].
  intros ?; by simplify_eq.
Qed.

Lemma add_book_inv today books title author year books' :
  _add_book today books title author year = Ok books' →
  ∃ b, books' = books ++ [b]
    ∧ __init__ today (last_id books) title author year = Ok b.
Proof.
  unfold _add_book. rewrite add_book_last_id. simpl.
  destruct (__init__ today (last_id books) title author year) as [b|]; simpl; [|done].
  destruct (_search_books_by _ _ _); simpl; [|done].
  case_bool_decide; [done|]. intros ?; simplify_eq. eauto.
Qed.

Lemma last_id_max books b :
  ids_ascending books → b ∈ books → id b ≤ last_id books.
Proof.
  destruct books as [|x l _] using rev_ind; intros Hasc Hb.
  - by apply elem_of_nil in Hb.
  - unfold last_id. rewrite last_snoc.
    apply elem_of_app in Hb as [Hb|Hb%list_elem_of_singleton].
    + pose proof (ids_ascending_last _ _ _ Hasc Hb). lia.
    + subst. lia.
Qed.

(** C6. Strictly ascending ids are an invariant of the manager: ids are
    then unique; add appends one record whose id is the last id plus one
    (1 on an empty catalogue) and exceeds every id present; delete removes
    one element and keeps the order of the rest; the status toggle changes
    no id and no position; and each of the three leaves the ids strictly
    ascending. *)
Theorem ids_ascending_preserved today books :
  ids_ascending books →
  NoDup (id <$> books)
  ∧ (∀ title author year books',
       _add_book today books title author year = Ok books' →
       ∃ b, books' = books ++ [b]
         ∧ id b = match list.last books with Some l => id l + 1 | None => 1 end
         ∧ (∀ b', b' ∈ books → id b' < id b)
         ∧ ids_ascending books')
  ∧ (∀ book_id books',
       _delete_book books book_id = Ok books' →
       (∃ before b after, books = before ++ b :: after ∧ books' = before ++ after)
       ∧ ids_ascending books')
  ∧ (∀ book_id books',
       _change_book_status books book_id = Ok books' →
       id <$> books' = id <$> books ∧ ids_ascending books').
Proof.
  intros Hasc. split; [by apply ids_ascending_NoDup|]. split; [|split].
  - intros title author year books' (b & -> & Hb)%add_book_inv.
    apply init_inv in Hb as (Hid & _).
    assert (∀ b', b' ∈ books → id b' < id b) as Hmax.
    { intros b' Hb'. pose proof (last_id_max _ _ Hasc Hb'). lia. }
    exists b. split; [done|]. split; [|split; [done|]].
    + rewrite Hid. unfold last_id. by destruct (list.last books).
    + by apply ids_ascending_snoc.
  - intros book_id books' (i & b & Hi & ->)%delete_book_inv. split.
    + exists (take i books), b, (drop (S i) books).
      rewrite take_drop_middle by done. split; [done|].
      rewrite <-(take_drop_middle books i b) at 1 by done.
      rewrite <-(length_take_le books i) at 1
        by (apply lookup_lt_Some in Hi; lia).
      by rewrite delete_middle.
    + by apply ids_ascending_delete.
  - intros book_id books' (i & b & Hi & ->)%change_book_status_inv. split.
    + rewrite list_fmap_insert. simpl. apply list_insert_id.
      by rewrite list_lookup_fmap, Hi.
    + by eapply ids_ascending_insert.
Qed.

Lemma ids_ascending_preserved_witness :
  NoDup (id <$> [book1; book3; book4])
  ∧ (∃ b, id b = 5 ∧ ids_ascending ([book1; book3; book4] ++ [b]))
  ∧ ids_ascending [book1; book4]
  ∧ (∃ books', _change_book_status [book1; book3; book4] 3 = Ok books'
       ∧ id <$> books' = [1; 3; 4] ∧ ids_ascending books').
Proof.
  destruct (ids_ascending_preserved 2024 [book1; book3; book4] ids_ascending_sample)
    as (Hnodup & Hadd & Hdel & Htog).
  split; [exact Hnodup|]. split; [|split].
  - destruct (Hadd (py "war and peace") (py "leo tolstoy") (VStr (py "1869"))
                ([book1; book3; book4]
                   ++ [Build 5 (py "War And Peace") (py "Leo Tolstoy") 1869 AVAILABLE])
                eq_refl) as (b & Hb & Hid & _ & Hasc).
    apply app_inv_head in Hb. simplify_eq. eexists. split; [|exact Hasc]. reflexivity.
  - exact (proj2 (Hdel 3 [book1; book4] eq_refl)).
  - eexists. split; [reflexivity|]. exact (Htog 3 _ eq_refl).
Defined.

(** ** The validators on the strings of the specification *)

(** C8. The title validator accepts the four-digit title 1984, and rejects
    the three-digit title 111 and the one-letter title A. *)
Theorem validate_title_examples :
  _validate_title (py "1984") = Ok (py "1984")
  ∧ _validate_title (py "111") = Raise (ValueError msg_title)
  ∧ _validate_title (py "A") = Raise (ValueError msg_title).
Proof. repeat split; vm_compute; reflexivity. Qed.

(** ** The year *)

Lemma messages_differ : msg_year_int ≠ msg_year_range.
Proof. intros H. vm_compute in H. discriminate H. Qed.

Lemma validate_year_int today y :
  _validate_year today (VInt y)
  = if decide (y ≤ 0 ∨ y > today) then Raise (ValueError msg_year_range) else Ok y.
Proof. reflexivity. Qed.

Lemma validate_year_str today s :
  _validate_year today (VStr s)
  = match int_of_str s with
    | Some y => _validate_year today (VInt y)
    | None => Raise (ValueError msg_year_int)
    end.
Proof. unfold _validate_year, int. by destruct (int_of_str s). Qed.

(** C9. An integer year is accepted exactly when it is positive and not
    beyond the current year, and what is accepted is the year itself; zero,
    a negative year and a year beyond the current one raise the
    out-of-range error; the current year is accepted; a string is judged by
    the integer it reads as, and one that reads as no integer raises an
    error with another message than the out-of-range one. *)
Theorem validate_year_spec (today y : Z) :
  0 < today →
  (_validate_year today (VInt y) = Ok y ↔ 0 < y ≤ today)
  ∧ (y ≤ 0 ∨ today < y →
       _validate_year today (VInt y) = Raise (ValueError msg_year_range))
  ∧ _validate_year today (VInt 0) = Raise (ValueError msg_year_range)
  ∧ _validate_year today (VInt today) = Ok today
  ∧ (∀ s, int_of_str s = Some y →
       _validate_year today (VStr s) = _validate_year today (VInt y))
  ∧ (∀ s, int_of_str s = None →
       _validate_year today (VStr s) = Raise (ValueError msg_year_int))
  ∧ ValueError msg_year_int ≠ ValueError msg_year_range.
Proof.
  intros Htoday. rewrite !validate_year_int.
  split; [|split; [|split; [|split; [|split; [|split]]]]].
  - case_decide; split; intros; simplify_eq; try lia; done.
  - intros Hy. by rewrite decide_True by lia.
  - by rewrite decide_True by lia.
  - by rewrite decide_False by lia.
  - intros s Hs. by rewrite validate_year_str, Hs, validate_year_int.
  - intros s Hs. by rewrite validate_year_str, Hs.
  - intros H. apply messages_differ. congruence.
Qed.

Lemma validate_year_spec_witness :
  (_validate_year 2025 (VInt 1869) = Ok 1869 ↔ 0 < 1869 ≤ 2025)
  ∧ _validate_year 2025 (VInt (-100)) = Raise (ValueError msg_year_range)
  ∧ _validate_year 2025 (VInt 2025) = Ok 2025
  ∧ _validate_year 2025 (VStr (py " 1_869 ")) = _validate_year 2025 (VInt 1869)
  ∧ _validate_year 2025 (VStr (py "0.2")) = Raise (ValueError msg_year_int).
Proof.
  destruct (validate_year_spec 2025 1869 ltac:(lia)) as (H1 & _ & _ & H4 & H5 & _).
  destruct (validate_year_spec 2025 (-100) ltac:(lia)) as (_ & H2 & _ & _ & _ & H6 & _).
  split; [exact H1|]. split; [apply H2; lia|]. split; [exact H4|].
  split; [apply H5; reflexivity|]. apply H6. reflexivity.
Defined.

(** ** The matcher and what patterns denote *)

Local Open Scope nat_scope.

Lemma or_else_Some a b e :
  or_else a b = Some e → a = Some e ∨ (a = None ∧ b = Some e).
Proof. destruct a; simpl; intros; simplify_eq; auto. Qed.

Lemma rep_sound m body :
  sound_for m body →
  ∀ fuel lo hi, sound_for (rep m fuel lo hi) (repeats body lo hi).
Proof.
  intros Hm fuel. induction fuel as [|fuel IH]; intros lo hi pos s k e; [done|].
  simpl. intros [Hmore|[_ Hstop]]%or_else_Some.
  - assert (hi ≠ Some O) as Hhi by (by intros ->).
    assert (m pos s (λ pos' s',
              if decide (pos' = pos) then None
              else rep m fuel (pred lo) (pred <$> hi) pos' s' k) = Some e) as Hstep.
    { by destruct hi as [[|n]|]. }
    apply Hm in Hstep as (a & s' & -> & Ha & Hk).
    case_decide as Hpos; [done|].
    apply IH in Hk as (b & s2 & -> & Hb & Hk).
    exists (a ++ b), s2. split; [by rewrite app_assoc|]. split.
    + apply repeats_more; try done. intros ->. simpl in Hpos. lia.
    + by rewrite length_app, Nat.add_assoc.
  - destruct lo; [|done]. exists [], s. split; [done|]. split; [constructor|].
    by rewrite Nat.add_0_r.
Qed.

Lemma rep_complete m body :
  complete_for m body →
  ∀ lo hi pos s1 s2, repeats body lo hi pos s1 s2 →
  ∀ fuel k e, (length (s1 ++ s2) < fuel)%nat →
    k (pos + length s1)%nat s2 = Some e →
    ∃ e', rep m fuel lo hi pos (s1 ++ s2) k = Some e'.
Proof.
  intros Hm lo hi pos s1 s2 Hrep.
  induction Hrep as [hi pos rest|lo hi pos a b rest Hhi Ha Hbody Hrep IH];
    intros [|fuel] k e Hfuel Hk; try lia; simpl.
  - rewrite Nat.add_0_r in Hk. rewrite Hk.
    destruct (match hi with Some O => None | _ => _ end); simpl; eauto.
  - rewrite length_app, Nat.add_assoc in Hk.
    destruct (IH fuel k e) as [e1 He1]; [|done|].
    { rewrite !length_app in *. destruct a; [done|]. simpl in *. lia. }
    destruct (Hm pos a (b ++ rest) (λ pos' s',
              if decide (pos' = pos) then None
              else rep m fuel (pred lo) (pred <$> hi) pos' s' k) e1) as [e2 He2]; [done| |].
    { rewrite decide_False; [done|]. destruct a; [done|]. simpl. lia. }
    rewrite <-app_assoc. exists e2.
    destruct hi as [[|n]|]; [done| |]; by rewrite He2.
Qed.

Lemma rmatch_sound r : sound_for (rmatch r) (matches r).
Proof.
  induction r as [p| | |r1 IH1 r2 IH2|r1 IH1 r2 IH2|lo hi r IH];
    intros pos s k e; [simpl..|].
  - destruct s as [|c s']; [done|]. destruct (p c) eqn:Hp; [|done]. intros Hk.
    exists [c], s'. split; [done|]. split; [eauto|]. by rewrite Nat.add_1_r.
  - case_decide; [|done]. intros Hk. exists [], s. by rewrite Nat.add_0_r.
  - destruct (at_end s) eqn:He; [|done]. intros Hk. exists [], s.
    by rewrite Nat.add_0_r.
  - intros (s1 & s' & -> & H1 & Hk)%IH1.
    apply IH2 in Hk as (s2 & s3 & -> & H2 & Hk).
    exists (s1 ++ s2), s3. split; [by rewrite app_assoc|]. split.
    + by exists s1, s2.
    + by rewrite length_app, Nat.add_assoc.
  - intros [H|[_ H]]%or_else_Some.
    + apply IH1 in H as (s1 & s2 & -> & H1 & Hk). exists s1, s2. auto.
    + apply IH2 in H as (s1 & s2 & -> & H1 & Hk). exists s1, s2. auto.
  - intros H. exact (rep_sound _ _ IH _ lo hi pos s k e H).
Qed.

Lemma rmatch_complete r : complete_for (rmatch r) (matches r).
Proof.
  induction r as [p| | |r1 IH1 r2 IH2|r1 IH1 r2 IH2|lo hi r IH];
    intros pos s1 s2 k e; [simpl..|].
  - intros (c & -> & Hp) Hk. simpl. rewrite Hp. rewrite Nat.add_1_r in Hk. eauto.
  - intros [-> ->] Hk. simpl in *. eauto.
  - intros [-> He] Hk. simpl. rewrite He. rewrite Nat.add_0_r in Hk. eauto.
  - intros (a & b & -> & Ha & Hb) Hk.
    rewrite length_app, Nat.add_assoc in Hk.
    destruct (IH2 _ _ _ _ _ Hb Hk) as [e2 He2].
    rewrite <-app_assoc. by eapply IH1.
  - intros [H|H] Hk.
    + destruct (IH1 _ _ _ _ _ H Hk) as [e1 ->]. simpl. eauto.
    + destruct (IH2 _ _ _ _ _ H Hk) as [e2 He2].
      destruct (rmatch r1 pos (s1 ++ s2) k); simpl; eauto.
  - intros Hrep Hk.
    exact (rep_complete _ _ IH lo hi pos s1 s2 Hrep _ k e (Nat.lt_succ_diag_r _) Hk).
Qed.

(** ** Characters *)

Ltac char_lia :=
  unfold author_sep, title_tail, title_text, letter, is_space, is_cased,
    to_lower, to_title, spec_sep, in_range in *;
  repeat match goal with
  | |- context [if ?b then _ else _] => destruct b eqn:?
  | H : context [if ?b then _ else _] |- _ => destruct b eqn:?
  end;
  rewrite ?orb_true_iff, ?andb_true_iff, ?orb_false_iff, ?andb_false_iff,
    ?N.leb_le, ?N.leb_gt, ?N.eqb_eq, ?N.eqb_neq in *;
  lia.

Lemma sep_not_letter c : author_sep c = true → letter c = false.
Proof. intros H. destruct (letter c) eqn:E; [exfalso|done]. char_lia. Qed.

(** ** Repetitions of a class and of the author groups *)

Lemma repeats_cls_inv p lo hi pos s rest :
  repeats (matches (Cls p)) lo hi pos s rest →
  (lo ≤ length s)%nat ∧ Forall (λ c, p c = true) s.
Proof.
  induction 1 as [|lo hi pos s1 s2 rest _ _ (c & -> & Hc) _ [IHlen IHall]];
    simpl; [split; [lia|constructor]|].
  split; [lia|by constructor].
Qed.

Lemma repeats_cls_intro p lo pos s rest :
  (lo ≤ length s)%nat → Forall (λ c, p c = true) s →
  repeats (matches (Cls p)) lo None pos s rest.
Proof.
  revert lo pos. induction s as [|c s IH]; intros lo pos Hlen Hall.
  - simpl in Hlen. replace lo with O by lia. constructor.
  - apply Forall_cons_1 in Hall as [Hc Hall].
    apply (repeats_more _ lo None pos [c] s rest); [done|done|by exists c|].
    apply IH; [simpl in Hlen; lia|done].
Qed.

Lemma group_regex_inv pos g rest : matches group_regex pos g rest → author_group g.
Proof.
  intros (a & name & -> & (c & -> & Hc) & Hname).
  apply repeats_cls_inv in Hname as [Hlen Hall].
  exists c, name. split; [done|]. split; [done|]. split; [|done].
  intros ->. simpl in Hlen. lia.
Qed.

Lemma group_regex_intro pos g rest : author_group g → matches group_regex pos g rest.
Proof.
  intros (c & name & -> & Hc & Hne & Hall).
  exists [c], name. split; [done|]. split; [by exists c|].
  apply repeats_cls_intro; [|done]. destruct name; [done|simpl; lia].
Qed.

Lemma repeats_groups_inv lo hi pos s rest :
  repeats (matches group_regex) lo hi pos s rest →
  ∃ groups, s = concat groups ∧ (lo ≤ length groups)%nat
            ∧ Forall author_group groups.
Proof.
  induction 1 as [|lo hi pos s1 s2 rest _ _ Hg%group_regex_inv _ (gs & -> & Hlen & Hall)].
  - exists []. split; [done|]. split; [done|constructor].
  - exists (s1 :: gs). split; [done|]. split; [simpl; lia|by constructor].
Qed.

Lemma repeats_groups_intro lo pos groups rest :
  (lo ≤ length groups)%nat → Forall author_group groups →
  repeats (matches group_regex) lo None pos (concat groups) rest.
Proof.
  revert lo pos. induction groups as [|g gs IH]; intros lo pos Hlen Hall.
  - simpl in Hlen. replace lo with O by lia. constructor.
  - apply Forall_cons_1 in Hall as [Hg Hall]. simpl.
    apply repeats_more; [done| |by apply group_regex_intro|].
    + destruct Hg as (c & name & -> & _). done.
    + apply IH; [simpl in Hlen; lia|done].
Qed.

(** ** The author pattern *)

Lemma author_regex_inv pos s rest :
  matches author_regex pos s rest →
  pos = O ∧ author_shape s ∧ at_end rest = true.
Proof.
  intros [H|H].
  - destruct H as (? & s1 & -> & [-> ->] & first & s2 & -> & Hfirst
                   & tail & ? & -> & Htail & -> & Hend).
    apply repeats_cls_inv in Hfirst as [Hlen Hall].
    apply repeats_groups_inv in Htail as (groups & -> & Hn & Hgs).
    split; [done|]. split; [|done]. right. exists first, groups.
    rewrite app_nil_r. simpl. repeat split; try done.
    intros ->. simpl in Hn. lia.
  - destruct H as (? & s1 & -> & [-> ->] & name & ? & -> & Hname & -> & Hend).
    apply repeats_cls_inv in Hname as [Hlen Hall].
    split; [done|]. split; [|done]. left. by rewrite app_nil_r.
Qed.

Lemma author_regex_intro s : author_shape s → matches author_regex 0 s [].
Proof.
  intros [[Hlen Hall]|(first & groups & -> & Hlen & Hall & Hne & Hgs)].
  - right. exists [], s. split; [done|]. split; [done|].
    exists s, []. split; [by rewrite app_nil_r|]. split; [|done].
    by apply repeats_cls_intro.
  - left. exists [], (first ++ concat groups). split; [done|]. split; [done|].
    exists first, (concat groups). split; [done|]. split.
    { by apply repeats_cls_intro. }
    exists (concat groups), []. split; [by rewrite app_nil_r|]. split; [|done].
    apply repeats_groups_intro; [|done]. destruct groups; [done|simpl; lia].
Qed.

(** ** Searching, and matching the whole subject *)

Lemma search_from_sound r s : ∀ pos st e,
  search_from r pos s = Some (st, e) →
  ∃ pre s1 s2, s = pre ++ s1 ++ s2 ∧ st = (pos + length pre)%nat
               ∧ e = (st + length s1)%nat ∧ matches r st s1 s2.
Proof.
  induction s as [|c s IH]; intros pos st e; simpl;
    destruct (rmatch r pos _ _) as [e0|] eqn:E; intros H; simplify_eq.
  - apply rmatch_sound in E as (s1 & s2 & Hs & Hm & Hk). simplify_eq.
    exists [], s1, s2. by rewrite Nat.add_0_r.
  - apply rmatch_sound in E as (s1 & s2 & Hs & Hm & Hk). simplify_eq.
    exists [], s1, s2. by rewrite Nat.add_0_r.
  - apply IH in H as (pre & s1 & s2 & -> & -> & -> & Hm).
    exists (c :: pre), s1, s2. simpl. by rewrite Nat.add_succ_r.
Qed.

Lemma group0_span (pre s1 s2 : str) :
  group0 (pre ++ s1 ++ s2) (length pre, (length pre + length s1)%nat) = s1.
Proof.
  unfold group0. simpl. rewrite drop_app_length.
  replace (length pre + length s1 - length pre)%nat with (length s1) by lia.
  by rewrite take_app_length.
Qed.

Lemma matches_whole_sound r s :
  anchored r → matches_whole r s → matches r 0 s [].
Proof.
  intros Hr ([st e] & Hs & Hg).
  apply search_from_sound in Hs as (pre & s1 & s2 & -> & -> & -> & Hm).
  pose proof (Hr _ _ _ Hm) as Hpre. simpl in Hpre, Hg.
  rewrite group0_span in Hg.
  apply (f_equal length) in Hg. rewrite !length_app in Hg.
  destruct pre; [|simpl in *; lia]. destruct s2; [|simpl in *; lia].
  simpl. by rewrite app_nil_r.
Qed.

Lemma matches_whole_complete r s :
  matches r 0 s [] →
  (∀ s1 s2, s = s1 ++ s2 → matches r 0 s1 s2 → s2 = []) →
  matches_whole r s.
Proof.
  intros Hm Hend.
  destruct (rmatch_complete r 0 s [] (λ e _, Some e) (length s) Hm eq_refl)
    as [e He].
  rewrite app_nil_r in He.
  pose proof He as Hs.
  apply rmatch_sound in Hs as (s1 & s2 & -> & Hm' & Hk). simplify_eq.
  pose proof (Hend s1 s2 eq_refl Hm') as ->. rewrite app_nil_r in *.
  exists (O, length s1). split.
  - unfold search. destruct s1; simpl in *; by rewrite He.
  - pose proof (group0_span [] s1 []) as Hg. simpl in Hg.
    by rewrite app_nil_r in Hg.
Qed.

(** ** The author validator *)

Lemma validate_author_cases a :
  (matches_whole author_regex a
     ∧ _validate_author a = Ok (str_title (str_strip a)))
  ∨ (¬ matches_whole author_regex a
     ∧ _validate_author a = Raise (ValueError msg_author)).
Proof.
  unfold _validate_author, matches_whole.
  destruct (search author_regex a) as [m|]; [case_decide|].
  - left. eauto.
  - right. split; [|done]. intros (m' & ? & ?). by simplify_eq.
  - right. split; [|done]. by intros (m' & ? & ?).
Qed.

Lemma author_regex_anchored : anchored author_regex.
Proof. intros pos s1 s2 H. by apply author_regex_inv in H as [? _]. Qed.

Lemma author_shape_last a :
  author_shape a → ∃ a' c, a = a' ++ [c] ∧ letter c = true.
Proof.
  intros [[Hlen Hall]|(first & groups & -> & Hlen & Hall & Hne & Hgs)].
  - destruct a as [|c a' _] using rev_ind; [simpl in Hlen; lia|].
    apply Forall_app in Hall as [_ Hc]. apply Forall_cons_1 in Hc as [Hc _].
    by exists a', c.
  - destruct groups as [|g gs _] using rev_ind; [done|].
    apply Forall_app in Hgs as [_ Hg]. apply Forall_cons_1 in Hg as [Hg _].
    destruct Hg as (sep & name & -> & _ & Hname & Hletters).
    destruct name as [|c name' _] using rev_ind; [done|].
    apply Forall_app in Hletters as [_ Hc]. apply Forall_cons_1 in Hc as [Hc _].
    exists (first ++ concat gs ++ sep :: name'), c. split; [|done].
    rewrite concat_app. simpl. rewrite app_nil_r, <-!app_assoc. done.
Qed.

Lemma author_whole_iff a : matches_whole author_regex a ↔ author_shape a.
Proof.
  split.
  - intros H%matches_whole_sound; [|apply author_regex_anchored].
    by apply author_regex_inv in H as (_ & ? & _).
  - intros Hshape. apply matches_whole_complete; [by apply author_regex_intro|].
    intros s1 s2 -> (_ & _ & Hend)%author_regex_inv.
    destruct s2 as [|c [|]]; [done| |done]. simpl in Hend.
    apply N.eqb_eq in Hend as ->.
    apply author_shape_last in Hshape as (a' & c & Heq & Hc).
    apply app_inj_tail in Heq as [_ <-]. done.
Qed.

Lemma validate_author_accepts a :
  author_shape a → _validate_author a = Ok (str_title (str_strip a)).
Proof.
  intros H%author_whole_iff. by destruct (validate_author_cases a) as [[_ ?]|[? _]].
Qed.

Lemma validate_author_rejects a :
  ¬ author_shape a → _validate_author a = Raise (ValueError msg_author).
Proof.
  intros H. destruct (validate_author_cases a) as [[?%author_whole_iff _]|[_ ?]]; done.
Qed.

Lemma validate_author_inv a x :
  _validate_author a = Ok x → author_shape a ∧ x = str_title (str_strip a).
Proof.
  destruct (validate_author_cases a) as [[H%author_whole_iff ->]|[_ ->]]; [|done].
  intros ?; by simplify_eq.
Qed.

(** A separator of an admitted author is followed by a letter. *)
Lemma groups_sep_then_letter groups : Forall author_group groups →
  ∀ name x c1 c2 y, Forall (λ c, letter c = true) name →
    name ++ concat groups = x ++ c1 :: c2 :: y →
    author_sep c1 = true → letter c2 = true.
Proof.
  induction 1 as [|g gs (sep & nm & -> & Hsep & Hne & Hnm) Hgs IH];
    intros name x c1 c2 y Hname Heq Hc1.
  - simpl in Heq. rewrite app_nil_r in Heq. subst name.
    apply Forall_app in Hname as [_ Hname].
    apply Forall_cons_1 in Hname as [Hl _].
    apply sep_not_letter in Hc1. congruence.
  - simpl in Heq.
    apply app_eq_inv in Heq as [(m & -> & Heq)|(m & -> & Heq)].
    + destruct m as [|c m].
      * simpl in Heq. simplify_eq. destruct nm; [done|].
        apply Forall_cons_1 in Hnm as [? _]. simpl in *. by simplify_eq.
      * simpl in Heq. simplify_eq.
        apply Forall_app in Hname as [_ Hname].
        apply Forall_cons_1 in Hname as [Hl _].
        apply sep_not_letter in Hc1. congruence.
    + destruct m as [|c m].
      * simpl in Heq. simplify_eq. destruct nm; [done|].
        apply Forall_cons_1 in Hnm as [? _]. simpl in *. by simplify_eq.
      * simpl in Heq. simplify_eq. by eapply (IH nm m).
Qed.

Lemma author_shape_sep_then_letter x c1 c2 y :
  author_shape (x ++ c1 :: c2 :: y) → author_sep c1 = true → letter c2 = true.
Proof.
  intros [[_ Hall]|(first & groups & Heq & _ & Hall & _ & Hgs)] Hc1.
  - apply Forall_app in Hall as [_ Hall].
    apply Forall_cons_1 in Hall as [Hl _].
    apply sep_not_letter in Hc1. congruence.
  - by eapply (groups_sep_then_letter groups Hgs first x c1 c2 y).
Qed.

(** C7, as the specification words it, fails: the validator accepts a
    later name of a single letter, the apostrophe as a separator, and any
    whitespace character as a separator. *)
Lemma author_rule_as_stated_fails :
  (_validate_author (py "Li B") = Ok (py "Li B")
   ∧ author_spec (py "Li B") = false)
  ∧ (_validate_author (py "Henry O'Neil") = Ok (py "Henry O'Neil")
     ∧ author_spec (py "Henry O'Neil") = false)
  ∧ (_validate_author [0x4A; 0x6F; 0x09; 0x44; 0x6F]%N = Ok [0x4A; 0x6F; 0x09; 0x44; 0x6F]%N
     ∧ author_spec [0x4A; 0x6F; 0x09; 0x44; 0x6F]%N = false).
Proof. repeat split; vm_compute; reflexivity. Qed.

(** C7, amended. The author validator accepts exactly the strings of the
    shape [author_shape]: five or more letters, or a first name of two or
    more letters followed by one or more groups of a single separator
    (apostrophe, hyphen or whitespace character) and a name of one or more
    letters.  What it accepts it returns trimmed and title-cased; a string
    that ends in a separator or holds two separators in a row is rejected;
    Homer is accepted, Ben and John Doe with two spaces are rejected. *)
Theorem validate_author_spec a :
  (author_shape a → _validate_author a = Ok (str_title (str_strip a)))
  ∧ (¬ author_shape a → _validate_author a = Raise (ValueError msg_author))
  ∧ (∀ c, author_sep c = true →
       _validate_author (a ++ [c]) = Raise (ValueError msg_author))
  ∧ (∀ c1 c2 b, author_sep c1 = true → author_sep c2 = true →
       _validate_author (a ++ c1 :: c2 :: b) = Raise (ValueError msg_author))
  ∧ _validate_author (py "Homer") = Ok (py "Homer")
  ∧ _validate_author (py "Ben") = Raise (ValueError msg_author)
  ∧ _validate_author (py "John  Doe") = Raise (ValueError msg_author).
Proof.
  split; [apply validate_author_accepts|].
  split; [apply validate_author_rejects|].
  split; [|split; [|repeat split; vm_compute; reflexivity]].
  - intros c Hc. apply validate_author_rejects.
    intros (a' & c' & [_ <-]%app_inj_tail & Hl)%author_shape_last.
    apply sep_not_letter in Hc. congruence.
  - intros c1 c2 b Hc1 Hc2. apply validate_author_rejects. intros Hshape.
    apply author_shape_sep_then_letter in Hshape; [|done].
    apply sep_not_letter in Hc2. congruence.
Qed.

Lemma author_shape_jean : author_shape (py "jean-pierre smith").
Proof.
  right. exists (py "jean"), [py "-pierre"; py " smith"].
  split; [reflexivity|]. split; [vm_compute; lia|].
  split; [by repeat constructor|]. split; [done|].
  repeat constructor.
  - exists 0x2D%N, (py "pierre"). repeat split; try done. by repeat constructor.
  - exists 0x20%N, (py "smith"). repeat split; try done. by repeat constructor.
Qed.

Lemma validate_author_spec_witness :
  _validate_author (py "jean-pierre smith") = Ok (py "Jean-Pierre Smith")
  ∧ _validate_author (py "Smith-") = Raise (ValueError msg_author)
  ∧ _validate_author (py "Jean--Pierre") = Raise (ValueError msg_author).
Proof.
  split; [|split].
  - exact (proj1 (validate_author_spec (py "jean-pierre smith")) author_shape_jean).
  - exact (proj1 (proj2 (proj2 (validate_author_spec (py "Smith")))) 0x2D%N eq_refl).
  - exact (proj1 (proj2 (proj2 (proj2 (validate_author_spec (py "Jean"))))) 0x2D%N 0x2D%N
             (py "Pierre") eq_refl eq_refl).
Defined.

(** ** Case and whitespace of single characters *)

Lemma space_uncased c :
  is_space c = true → is_cased c = false ∧ to_title c = c ∧ to_lower c = c.
Proof.
  intros H. destruct (is_cased c) eqn:E.
  - exfalso. char_lia.
  - split; [done|]. split; char_lia.
Qed.

Lemma to_title_space c : is_space (to_title c) = is_space c.
Proof.
  destruct (is_space c) eqn:E.
  - apply space_uncased in E as H. destruct H as (_ & -> & _). done.
  - destruct (is_space (to_title c)) eqn:E'; [exfalso|done]. char_lia.
Qed.

Lemma to_lower_space c : is_space (to_lower c) = is_space c.
Proof.
  destruct (is_space c) eqn:E.
  - apply space_uncased in E as H. destruct H as (_ & _ & ->). done.
  - destruct (is_space (to_lower c)) eqn:E'; [exfalso|done]. char_lia.
Qed.

Lemma to_title_cased c : is_cased (to_title c) = is_cased c.
Proof.
  destruct (is_cased c) eqn:E, (is_cased (to_title c)) eqn:E'; try done;
    exfalso; char_lia.
Qed.

Lemma to_lower_cased c : is_cased (to_lower c) = is_cased c.
Proof.
  destruct (is_cased c) eqn:E, (is_cased (to_lower c)) eqn:E'; try done;
    exfalso; char_lia.
Qed.

Lemma to_title_idem c : to_title (to_title c) = to_title c.
Proof. char_lia. Qed.

Lemma to_lower_idem c : to_lower (to_lower c) = to_lower c.
Proof. char_lia. Qed.

Lemma to_title_not_eq c : c ≠ 0x3D%N → to_title c ≠ 0x3D%N.
Proof. intros H. char_lia. Qed.

Lemma to_lower_not_eq c : c ≠ 0x3D%N → to_lower c ≠ 0x3D%N.
Proof. intros H. char_lia. Qed.

(** ** [strip] and [title] *)

Lemma strip_by_eq space s : strip_by space s = rstrip_by space (lstrip_by space s).
Proof. reflexivity. Qed.

Lemma rstrip_snoc space s c :
  rstrip_by space (s ++ [c]) = if space c then rstrip_by space s else s ++ [c].
Proof.
  unfold rstrip_by. rewrite rev_unit. simpl. destruct (space c); [done|].
  simpl. by rewrite rev_involutive.
Qed.

Lemma rstrip_idem space s : rstrip_by space (rstrip_by space s) = rstrip_by space s.
Proof.
  induction s as [|c s IH] using rev_ind; [done|].
  rewrite rstrip_snoc. destruct (space c) eqn:E; [done|].
  by rewrite rstrip_snoc, E.
Qed.

Lemma rstrip_head space c s :
  space c = false → ∃ u, rstrip_by space (c :: s) = c :: u.
Proof.
  intros Hc. induction s as [|d s IH] using rev_ind.
  - exists []. change [c] with ([] ++ [c]). by rewrite rstrip_snoc, Hc.
  - rewrite app_comm_cons, rstrip_snoc. destruct (space d); eauto.
Qed.

Lemma lstrip_head space s :
  lstrip_by space s = [] ∨ ∃ c u, lstrip_by space s = c :: u ∧ space c = false.
Proof.
  induction s as [|c s IH]; [by left|]. simpl.
  destruct (space c) eqn:E; [done|]. right. eauto.
Qed.

Lemma strip_idem space s : strip_by space (strip_by space s) = strip_by space s.
Proof.
  rewrite !strip_by_eq.
  assert (lstrip_by space (rstrip_by space (lstrip_by space s))
          = rstrip_by space (lstrip_by space s)) as ->; [|apply rstrip_idem].
  destruct (lstrip_head space s) as [->|(c & u & -> & Hc)]; [done|].
  destruct (rstrip_head space c u Hc) as [v ->]. simpl. by rewrite Hc.
Qed.

Lemma lstrip_title s :
  lstrip_by is_space (title_from false s) = title_from false (lstrip_by is_space s).
Proof.
  induction s as [|c s IH]; [done|]. simpl.
  rewrite to_title_space. destruct (is_space c) eqn:E; [|done].
  apply space_uncased in E as (-> & _ & _). done.
Qed.

Lemma title_from_snoc p s c :
  ∃ c', title_from p (s ++ [c]) = title_from p s ++ [c']
        ∧ is_space c' = is_space c ∧ (is_space c = true → c' = c).
Proof.
  revert p. induction s as [|d s IH]; intros p; simpl.
  - exists (if p then to_lower c else to_title c). split; [done|].
    destruct p; rewrite ?to_lower_space, ?to_title_space; (split; [done|]);
      by intros (_ & ? & ?)%space_uncased.
  - destruct (IH (is_cased d)) as (c' & -> & ?). eauto.
Qed.

Lemma rstrip_title p s :
  rstrip_by is_space (title_from p s) = title_from p (rstrip_by is_space s).
Proof.
  induction s as [|c s IH] using rev_ind; [done|].
  destruct (title_from_snoc p s c) as (c' & Heq & Hsp & Hid).
  rewrite Heq, !rstrip_snoc, Hsp. destruct (is_space c); [done|]. done.
Qed.

Lemma strip_title s : str_strip (str_title s) = str_title (str_strip s).
Proof.
  unfold str_strip, str_title. rewrite !strip_by_eq.
  by rewrite lstrip_title, rstrip_title.
Qed.

Lemma title_from_idem p s : title_from p (title_from p s) = title_from p s.
Proof.
  revert p. induction s as [|c s IH]; intros p; [done|]. simpl.
  destruct p; rewrite ?to_lower_idem, ?to_title_idem, ?to_lower_cased,
    ?to_title_cased, IH; done.
Qed.

(** A normalised string is its own search value. *)
Lemma normalised_fixed s :
  str_strip (str_title (str_title (str_strip s))) = str_title (str_strip s).
Proof.
  unfold str_title at 1 2. rewrite title_from_idem. fold (str_title (str_strip s)).
  rewrite strip_title. unfold str_strip. by rewrite strip_idem.
Qed.

(** ** Strings without the equals sign *)

Lemma lstrip_forall (P : N → Prop) space s :
  Forall P s → Forall P (lstrip_by space s).
Proof.
  induction 1 as [|c s Hc Hs IH]; [constructor|]. simpl.
  destruct (space c); [done|by constructor].
Qed.

Lemma strip_forall (P : N → Prop) space s :
  Forall P s → Forall P (strip_by space s).
Proof.
  intros H. unfold strip_by.
  by apply List.Forall_rev, lstrip_forall, List.Forall_rev, lstrip_forall.
Qed.

Lemma title_no_eq p s : no_eq s → no_eq (title_from p s).
Proof.
  intros H. revert p. induction H as [|c s Hc Hs IH]; intros p; [constructor|].
  simpl. constructor; [|apply IH].
  destruct p; [by apply to_lower_not_eq|by apply to_title_not_eq].
Qed.

Lemma normalised_no_eq s : no_eq s → no_eq (str_title (str_strip s)).
Proof. intros H. by apply title_no_eq, strip_forall. Qed.

Lemma class_no_eq (p : N → bool) s :
  p 0x3D%N = false → Forall (λ c, p c = true) s → no_eq s.
Proof.
  intros Hp. apply Forall_impl. intros c Hc ->. congruence.
Qed.

Lemma author_shape_no_eq a : author_shape a → no_eq a.
Proof.
  intros [[_ Hall]|(first & groups & -> & _ & Hall & _ & Hgs)].
  - by apply (class_no_eq letter).
  - apply Forall_app. split; [by apply (class_no_eq letter)|].
    apply Forall_concat. eapply Forall_impl; [|exact Hgs].
    intros g (sep & name & -> & Hsep & _ & Hname). constructor.
    + intros ->. done.
    + by apply (class_no_eq letter).
Qed.

(** ** The title pattern *)

Lemma title_regex_inv pos s rest :
  matches title_regex pos s rest → pos = O ∧ no_eq s.
Proof.
  intros [H|[H|H]].
  - destruct H as (? & s1 & -> & [-> ->] & first & s2 & -> & Hfirst
                   & tail & ? & -> & Htail & -> & Hend).
    apply repeats_cls_inv in Hfirst as [_ Hfirst].
    apply repeats_cls_inv in Htail as [_ Htail].
    split; [done|]. rewrite app_nil_r. simpl. apply Forall_app. split.
    + by apply (class_no_eq letter).
    + by apply (class_no_eq title_tail).
  - destruct H as (? & s1 & -> & [-> ->] & first & s2 & -> & Hfirst
                   & tail & ? & -> & Htail & -> & Hend).
    apply repeats_cls_inv in Hfirst as [_ Hfirst].
    apply repeats_cls_inv in Htail as [_ Htail].
    split; [done|]. rewrite app_nil_r. simpl. apply Forall_app. split.
    + by apply (class_no_eq is_decimal).
    + by apply (class_no_eq title_text).
  - destruct H as (? & s1 & -> & [-> ->] & first & ? & -> & Hfirst & -> & Hend).
    apply repeats_cls_inv in Hfirst as [_ Hfirst].
    split; [done|]. rewrite app_nil_r. simpl.
    by apply (class_no_eq is_decimal).
Qed.

Lemma validate_title_inv t x :
  _validate_title t = Ok x → no_eq t ∧ x = str_title (str_strip t).
Proof.
  unfold _validate_title.
  destruct (search title_regex t) as [m|] eqn:Hs; [|done].
  case_decide as Hg; [|done]. intros ?; simplify_eq. split; [|done].
  assert (matches_whole title_regex t) as Hw by (by exists m).
  apply matches_whole_sound in Hw.
  - by apply title_regex_inv in Hw as [_ ?].
  - intros pos s1 s2 H. by apply title_regex_inv in H as [? _].
Qed.

(** ** Splitting a query *)

Lemma split_from_no_eq v : no_eq v →
  ∀ piece, split_from [0x20; 0x3D; 0x20]%N 0 piece v = [rev piece ++ v].
Proof.
  induction 1 as [|c v Hc Hv IH]; intros piece; cbn [split_from].
  - by rewrite app_nil_r.
  - assert (strip_prefix [0x20; 0x3D; 0x20]%N (c :: v) = None) as ->.
    { cbn [strip_prefix]. destruct (0x20 =? c)%N; [|done].
      destruct Hv as [|d v Hd _]; [done|]. cbn [strip_prefix].
      by apply not_eq_sym, N.eqb_neq in Hd as ->. }
    rewrite IH. simpl. by rewrite <-app_assoc.
Qed.

Lemma split_query field v :
  no_eq field → no_eq v →
  str_split (py " = ") (field ++ py " = " ++ v) = Some [field; v].
Proof.
  intros Hf Hv. change (py " = ") with [0x20; 0x3D; 0x20]%N.
  unfold str_split. f_equal.
  assert (∀ piece, split_from [0x20; 0x3D; 0x20]%N 0 piece
            (field ++ [0x20; 0x3D; 0x20]%N ++ v) = [rev piece ++ field; v]) as H;
    [|by rewrite H].
  induction Hf as [|c f Hc Hf IH]; intros piece.
  - simpl. rewrite split_from_no_eq by done. by rewrite app_nil_r.
  - cbn [app split_from].
    assert (strip_prefix [0x20; 0x3D; 0x20]%N
              (c :: f ++ 0x20%N :: 0x3D%N :: 0x20%N :: v) = None) as ->.
    { cbn [strip_prefix]. destruct (0x20 =? c)%N; [|done].
      destruct Hf as [|d f Hd _]; cbn [strip_prefix app]; [done|].
      by apply not_eq_sym, N.eqb_neq in Hd as ->. }
    rewrite IH. simpl. by rewrite <-app_assoc.
Qed.

(** ** Searching by a field *)

Local Open Scope Z_scope.

Lemma search_books_by_field books field v return_book_obj :
  field ∈ [py "title"; py "author"; py "year"] → no_eq v →
  _search_books_by books (field ++ py " = " ++ v) return_book_obj
  = match filter (λ book, py_eq (get book field)
                            (VStr (str_strip (str_title v))) = true) books with
    | [] => if return_book_obj then Ok [] else Raise NotFoundInTheLibrary
    | results => Ok results
    end.
Proof.
  intros Hfield Hv. unfold _search_books_by.
  assert (no_eq field ∧ str_strip (str_lower field) = field) as [Hf Hnorm].
  { repeat (apply elem_of_cons in Hfield as [->|Hfield]);
      [| | |by apply elem_of_nil in Hfield];
      (split; [by repeat constructor|reflexivity]). }
  rewrite split_query by done. cbv zeta. rewrite Hnorm.
  rewrite bool_decide_eq_true_2 by done.
  by destruct (filter _ books).
Qed.

Lemma kept_title v b :
  py_eq (get b (py "title")) (VStr v) = true ↔ Book.title b = v.
Proof. change (get b (py "title")) with (VStr (Book.title b)). apply bool_decide_eq_true. Qed.

Lemma kept_author v b :
  py_eq (get b (py "author")) (VStr v) = true ↔ Book.author b = v.
Proof. change (get b (py "author")) with (VStr (Book.author b)). apply bool_decide_eq_true. Qed.

Lemma kept_year v b : py_eq (get b (py "year")) (VStr v) ≠ true.
Proof. change (get b (py "year")) with (VInt (Book.year b)). done. Qed.

Lemma filter_none {A} (P : A → Prop) `{∀ x, Decision (P x)} (l : list A) :
  (∀ x, ¬ P x) → filter P l = [].
Proof.
  intros HP. induction l as [|x l IH]; [done|].
  by rewrite filter_cons_False.
Qed.

(** A search by year keeps no book: the year of a book is an integer and
    the search value a string. *)
Lemma search_books_by_year books v :
  no_eq v →
  _search_books_by books (py "year = " ++ v) false = Raise NotFoundInTheLibrary
  ∧ _search_books_by books (py "year = " ++ v) true = Ok [].
Proof.
  intros Hv.
  change (py "year = " ++ v) with (py "year" ++ py " = " ++ v).
  rewrite !search_books_by_field by first [done | by repeat constructor].
  by rewrite filter_none by apply kept_year.
Qed.

Lemma search_books_by_author books a :
  no_eq a →
  _search_books_by books (py "author = " ++ str_title (str_strip a)) true
  = Ok (filter (λ b, Book.author b = str_title (str_strip a)) books).
Proof.
  intros Ha.
  change (py "author = " ++ ?x) with (py "author" ++ py " = " ++ x).
  rewrite search_books_by_field; [|repeat constructor|by apply normalised_no_eq].
  rewrite normalised_fixed.
  rewrite (list_filter_iff _ (λ b, Book.author b = str_title (str_strip a)))
    by (intros b; apply kept_author).
  by destruct (filter _ books).
Qed.

(** ** Adding a book *)

(** [_add_book] on fields that pass validation. *)
Lemma add_book_valid today books title author year nt na ny :
  _validate_title title = Ok nt → _validate_author author = Ok na →
  _validate_year today year = Ok ny →
  _add_book today books title author year
  = if bool_decide (Exists (λ book,
         py_eq (get book (py "title")) (VStr nt) = true
         ∧ py_eq (get book (py "year")) (VInt ny) = true)
         (filter (λ b, Book.author b = na) books))
    then Raise AlreadyInTheLibrary
    else Ok (books ++ [Build (last_id books + 1) nt na ny AVAILABLE]).
Proof.
  intros Ht Ha Hy.
  assert (__init__ today (last_id books) title author year
          = Ok (Build (last_id books + 1) nt na ny AVAILABLE)) as Hinit.
  { unfold __init__. by rewrite Ht, Ha, Hy. }
  unfold _add_book. rewrite add_book_last_id.
  unfold mbind, result_bind. rewrite Hinit. cbn [Book.author Book.title Book.year].
  apply validate_author_inv in Ha as [Hshape ->].
  by rewrite search_books_by_author by by apply author_shape_no_eq.
Qed.

Lemma duplicate_iff books nt na ny :
  Exists (λ book,
      py_eq (get book (py "title")) (VStr nt) = true
      ∧ py_eq (get book (py "year")) (VInt ny) = true)
    (filter (λ b, Book.author b = na) books)
  ↔ ∃ b, b ∈ books ∧ Book.author b = na ∧ Book.title b = nt ∧ Book.year b = ny.
Proof.
  rewrite list.Exists_exists. split.
  - intros (b & [Ha Hb]%list_elem_of_filter & Ht%kept_title & Hy).
    exists b. repeat split; try done.
    change (get b (py "year")) with (VInt (Book.year b)) in Hy.
    by apply bool_decide_eq_true in Hy.
  - intros (b & Hb & Ha & Ht & Hy). exists b.
    split; [by apply list_elem_of_filter|]. split; [by apply kept_title|].
    change (get b (py "year")) with (VInt (Book.year b)).
    by apply bool_decide_eq_true.
Qed.

(** C4. With fields that pass validation, add raises AlreadyInTheLibrary
    exactly when some record of the catalogue has the normalised author,
    title and year of the new record, and otherwise appends the new record;
    the check searches the records of that author first, and the title and
    year are compared among those. *)
Theorem add_book_already_in_the_library today books title author year nt na ny :
  _validate_title title = Ok nt → _validate_author author = Ok na →
  _validate_year today year = Ok ny →
  _search_books_by books (py "author = " ++ na) true
    = Ok (filter (λ b, Book.author b = na) books)
  ∧ (_add_book today books title author year = Raise AlreadyInTheLibrary
     ↔ ∃ b, b ∈ filter (λ b, Book.author b = na) books
            ∧ Book.title b = nt ∧ Book.year b = ny)
  ∧ (_add_book today books title author year = Raise AlreadyInTheLibrary
     ↔ ∃ b, b ∈ books ∧ Book.author b = na ∧ Book.title b = nt ∧ Book.year b = ny)
  ∧ ((¬ ∃ b, b ∈ books ∧ Book.author b = na ∧ Book.title b = nt ∧ Book.year b = ny) →
     _add_book today books title author year
     = Ok (books ++ [Build (last_id books + 1) nt na ny AVAILABLE])).
Proof.
  intros Ht Ha Hy. rewrite (add_book_valid _ _ _ _ _ _ _ _ Ht Ha Hy).
  split; [|split; [|split]].
  - apply validate_author_inv in Ha as [Hshape ->].
    by apply search_books_by_author, author_shape_no_eq.
  - case_bool_decide as Hdup; rewrite duplicate_iff in Hdup.
    + split; [intros _|done]. destruct Hdup as (b & Hb & Hba & Hbt & Hby).
      exists b. by rewrite list_elem_of_filter.
    + split; [done|]. intros (b & [Hba Hb]%list_elem_of_filter & Hbt & Hby).
      destruct Hdup. by exists b.
  - case_bool_decide as Hdup; rewrite duplicate_iff in Hdup; by split.
  - intros Hnew. case_bool_decide as Hdup; [|done].
    by rewrite duplicate_iff in Hdup.
Qed.

Lemma add_book_already_in_the_library_witness :
  _add_book 2024 [book1; book3] (py "book") (py "homer") (VStr (py "2000"))
    = Raise AlreadyInTheLibrary
  ∧ _add_book 2024 [book1; book3] (py "book") (py "homer") (VInt 2001)
    = Ok [book1; book3; Build 4 (py "Book") (py "Homer") 2001 AVAILABLE].
Proof.
  split.
  - apply (add_book_already_in_the_library 2024 [book1; book3]
             (py "book") (py "homer") (VStr (py "2000"))
             (py "Book") (py "Homer") 2000 eq_refl eq_refl eq_refl).
    exists book1. split; [by constructor|]. by repeat split.
  - apply (add_book_already_in_the_library 2024 [book1; book3]
             (py "book") (py "homer") (VInt 2001)
             (py "Book") (py "Homer") 2001 eq_refl eq_refl eq_refl).
    intros (b & Hb & _ & _ & Hy).
    repeat (apply elem_of_cons in Hb as [->|Hb]); try done.
    by apply elem_of_nil in Hb.
Defined.

(** ** Adding, then searching *)

(** After a successful add, a search by title or by author with the value
    that was given to add finds the new record. *)
Lemma add_then_search_title_author today books title author year books' mode :
  _add_book today books title author year = Ok books' →
  ∃ b, books' = books ++ [b]
    ∧ _validate_title title = Ok (Book.title b)
    ∧ _validate_author author = Ok (Book.author b)
    ∧ _validate_year today year = Ok (Book.year b)
    ∧ (∃ results, _search_books_by books' (py "title = " ++ title) mode = Ok results
                  ∧ b ∈ results)
    ∧ (∃ results, _search_books_by books' (py "author = " ++ author) mode = Ok results
                  ∧ b ∈ results).
Proof.
  intros (b & -> & (_ & Ht & Ha & Hy & _)%init_inv)%add_book_inv.
  exists b. repeat (split; [done|]).
  pose proof Ht as [Hnt Het]%validate_title_inv.
  pose proof Ha as [Hna%author_shape_no_eq Hea]%validate_author_inv.
  split.
  - change (py "title = " ++ title) with (py "title" ++ py " = " ++ title).
    rewrite search_books_by_field; [|by repeat constructor|done].
    rewrite strip_title, <-Het.
    assert (b ∈ filter (λ book, py_eq (get book (py "title"))
                                  (VStr (Book.title b)) = true) (books ++ [b])) as Hin.
    { apply list_elem_of_filter. split; [by apply kept_title|].
      apply elem_of_app. right. by constructor. }
    destruct (filter _ (books ++ [b])) as [|x l]; [by apply elem_of_nil in Hin|eauto].
  - change (py "author = " ++ author) with (py "author" ++ py " = " ++ author).
    rewrite search_books_by_field; [|by repeat constructor|done].
    rewrite strip_title, <-Hea.
    assert (b ∈ filter (λ book, py_eq (get book (py "author"))
                                  (VStr (Book.author b)) = true) (books ++ [b])) as Hin.
    { apply list_elem_of_filter. split; [by apply kept_author|].
      apply elem_of_app. right. by constructor. }
    destruct (filter _ (books ++ [b])) as [|x l]; [by apply elem_of_nil in Hin|eauto].
Qed.

(** C1 at a failing input. The book added with year 2000 is not found by
    a search for the year 2000: the stored year is the integer and the
    search value the string, which never compare equal, so that the search
    reports nothing found. *)
Theorem search_by_year_misses_added_book :
  _add_book 2024 [] (py "book") (py "homer") (VStr (py "2000")) = Ok [book1]
  ∧ Book.year book1 = 2000
  ∧ _search_books_by [book1] (py "year = 2000") false = Raise NotFoundInTheLibrary
  ∧ _search_books_by [book1] (py "year = 2000") true = Ok []
  ∧ _search_books_by [book1] (py "title = book") false = Ok [book1]
  ∧ _search_books_by [book1] (py "author = homer") false = Ok [book1].
Proof. repeat split; vm_compute; reflexivity. Qed.

(** * Further properties *)

(** ** The lookup on any catalogue *)

(** Whatever the order of the ids, the loop ends without an exception, on
    -1 or on a position inside its window whose record has the id. *)
Lemma find_loop_any books book_id lo hi :
  0 ≤ lo → hi < Z.of_nat (length books) →
  ∃ r, find_loop books book_id true lo hi = Ok r
       ∧ (r = -1 ∨ ∃ (i : nat) b, r = Z.of_nat i ∧ books !! i = Some b
                                  ∧ id b = book_id).
Proof.
  remember true as ri eqn:Hri. revert Hri.
  funelim (find_loop books book_id ri lo hi); intros -> Hlo Hhi.
  - eauto.
  - exfalso. at_mid.
  - at_mid. eexists. split; [done|]. right.
    eexists (Z.to_nat ((low_bound + high_bound) `div` 2)), _.
    split; [lia|]. split; [eassumption|done].
  - at_mid. apply H; [done|lia|lia].
  - at_mid. apply H; [done|lia|lia].
Qed.

Lemma find_any books book_id :
  ∃ r, _find_book_in_the_library books book_id true = Ok r
       ∧ (r = -1 ∨ ∃ (i : nat) b, r = Z.of_nat i ∧ books !! i = Some b
                                  ∧ id b = book_id).
Proof. apply find_loop_any; lia. Qed.

Lemma delete_book_any books book_id :
  _delete_book books book_id = Raise NotFoundInTheLibrary
  ∨ ∃ (i : nat) b, books !! i = Some b ∧ id b = book_id
                   ∧ _delete_book books book_id = Ok (delete i books).
Proof.
  unfold _delete_book.
  destruct (find_any books book_id) as (r & -> & [->|(i & b & -> & Hi & Hb)]);
    simpl; [by left|right].
  destruct (decide (Z.of_nat i = -1)); [lia|].
  exists i, b. split; [done|]. split; [done|].
  unfold pop. rewrite norm_index_nat; [done|]. by eapply lookup_lt_Some.
Qed.

Lemma change_book_status_any books book_id :
  _change_book_status books book_id = Raise NotFoundInTheLibrary
  ∨ ∃ (i : nat) b, books !! i = Some b ∧ id b = book_id
      ∧ _change_book_status books book_id
        = Ok (<[i := set_status b (toggled (status b))]> books).
Proof.
  destruct (find_any books book_id) as (r & Hr & [->|(i & b & -> & Hi & Hb)]).
  - left. unfold _change_book_status. by rewrite Hr.
  - right. exists i, b. split; [done|]. split; [done|].
    by apply change_book_status_found.
Qed.

(** X1. On any catalogue, ascending or not, the lookup raises nothing and
    returns -1 or a position inside the list whose record has the requested
    id; so delete either raises NotFoundInTheLibrary or removes exactly one
    record, which has that id, and the status toggle either raises
    NotFoundInTheLibrary or rewrites the status of exactly one record, which
    has that id.  No IndexError, and no record of another id is touched. *)
Theorem lookup_never_misfires books book_id :
  (∃ r, _find_book_in_the_library books book_id true = Ok r
        ∧ (r = -1 ∨ (0 ≤ r < Z.of_nat (length books)
                     ∧ ∃ b, books !! Z.to_nat r = Some b ∧ id b = book_id)))
  ∧ (_delete_book books book_id = Raise NotFoundInTheLibrary
     ∨ ∃ before b after, books = before ++ b :: after ∧ id b = book_id
         ∧ _delete_book books book_id = Ok (before ++ after))
  ∧ (_change_book_status books book_id = Raise NotFoundInTheLibrary
     ∨ ∃ before b after, books = before ++ b :: after ∧ id b = book_id
         ∧ _change_book_status books book_id
           = Ok (before ++ set_status b (toggled (status b)) :: after)).
Proof.
  split; [|split].
  - destruct (find_any books book_id) as (r & Hr & [->|(i & b & -> & Hi & Hb)]);
      eexists; (split; [exact Hr|]); [by left|right].
    split; [apply lookup_lt_Some in Hi; lia|]. rewrite Nat2Z.id. eauto.
  - destruct (delete_book_any books book_id) as [?|(i & b & Hi & Hb & ->)];
      [by left|right].
    exists (take i books), b, (drop (S i) books).
    rewrite take_drop_middle by done. split; [done|]. split; [done|].
    rewrite <-(take_drop_middle books i b) at 1 by done.
    rewrite <-(length_take_le books i) at 1 by (apply lookup_lt_Some in Hi; lia).
    by rewrite delete_middle.
  - destruct (change_book_status_any books book_id) as [?|(i & b & Hi & Hb & ->)];
      [by left|right].
    exists (take i books), b, (drop (S i) books).
    rewrite take_drop_middle by done. split; [done|]. split; [done|].
    rewrite <-(take_drop_middle books i b) at 1 by done.
    rewrite <-(length_take_le books i) at 1 by (apply lookup_lt_Some in Hi; lia).
    by rewrite insert_app_r_alt, Nat.sub_diag by lia.
Qed.

(** ** Ids that are not there *)

Lemma absent_id_not_found_aux books book_id :
  ids_ascending books → (∀ b, b ∈ books → id b ≠ book_id) →
  _delete_book books book_id = Raise NotFoundInTheLibrary
  ∧ _change_book_status books book_id = Raise NotFoundInTheLibrary.
Proof.
  intros Hasc Hno. unfold _delete_book, _change_book_status.
  by rewrite (find_absent _ _ Hasc Hno).
Qed.

(** X2. In a catalogue with strictly ascending ids, delete and the status
    toggle of an id that no record has raise NotFoundInTheLibrary. *)
Theorem absent_id_not_found books book_id :
  ids_ascending books → (∀ b, b ∈ books → id b ≠ book_id) →
  _delete_book books book_id = Raise NotFoundInTheLibrary
  ∧ _change_book_status books book_id = Raise NotFoundInTheLibrary.
Proof. apply absent_id_not_found_aux. Qed.

Lemma absent_id_not_found_witness :
  _delete_book [book1; book3; book4] 2 = Raise NotFoundInTheLibrary
  ∧ _change_book_status [book1; book3; book4] 2 = Raise NotFoundInTheLibrary.
Proof.
  apply (absent_id_not_found [book1; book3; book4] 2 ids_ascending_sample).
  intros b Hb. repeat (apply elem_of_cons in Hb as [->|Hb]); try done.
  by apply elem_of_nil in Hb.
Defined.

Lemma ids_ascending_inj books (i j : nat) bi bj :
  ids_ascending books → books !! i = Some bi → books !! j = Some bj →
  id bi = id bj → i = j.
Proof.
  intros Hasc Hi Hj Heq.
  destruct (Nat.lt_trichotomy i j) as [Hlt|[?|Hgt]]; [|done|].
  - pose proof (Hasc _ _ _ _ Hi Hj Hlt). lia.
  - pose proof (Hasc _ _ _ _ Hj Hi Hgt). lia.
Qed.

(** X3. In a catalogue with strictly ascending ids, after a successful
    delete no record has the deleted id any more: deleting it again, or
    toggling it, raises NotFoundInTheLibrary. *)
Theorem delete_book_then_gone books book_id books' :
  ids_ascending books → _delete_book books book_id = Ok books' →
  (∀ b, b ∈ books' → id b ≠ book_id)
  ∧ _delete_book books' book_id = Raise NotFoundInTheLibrary
  ∧ _change_book_status books' book_id = Raise NotFoundInTheLibrary.
Proof.
  intros Hasc Hdel.
  assert (∀ b, b ∈ books' → id b ≠ book_id) as Hgone.
  { destruct (delete_book_any books book_id) as [H|(i & b & Hi & Hb & H)];
      rewrite H in Hdel; [done|]. simplify_eq.
    intros b' [j Hj]%list_elem_of_lookup_1 Heq.
    destruct (decide (j < i)%nat).
    - rewrite list_lookup_delete_lt in Hj by done.
      pose proof (ids_ascending_inj _ _ _ _ _ Hasc Hj Hi Heq). lia.
    - rewrite list_lookup_delete_ge in Hj by lia.
      pose proof (ids_ascending_inj _ _ _ _ _ Hasc Hj Hi Heq). lia. }
  split; [done|]. apply absent_id_not_found_aux; [|done].
  apply delete_book_inv in Hdel as (i & b & _ & ->).
  by apply ids_ascending_delete.
Qed.

Lemma delete_book_then_gone_witness :
  (∀ b, b ∈ [book1; book4] → id b ≠ 3)
  ∧ _delete_book [book1; book4] 3 = Raise NotFoundInTheLibrary
  ∧ _change_book_status [book1; book4] 3 = Raise NotFoundInTheLibrary.
Proof.
  exact (delete_book_then_gone [book1; book3; book4] 3 [book1; book4]
           ids_ascending_sample eq_refl).
Defined.

(** ** Adding, then looking up and deleting *)

Lemma add_book_ascending today books title author year b :
  ids_ascending books →
  _add_book today books title author year = Ok (books ++ [b]) →
  ids_ascending (books ++ [b]).
Proof.
  intros Hasc (b' & Heq & (Hid & _)%init_inv)%add_book_inv.
  apply app_inj_tail in Heq as [_ ->].
  apply ids_ascending_snoc; [done|].
  intros b0 Hb0. pose proof (last_id_max _ _ Hasc Hb0). lia.
Qed.

(** X4. In a catalogue with strictly ascending ids, the record a successful
    add appends is found by the lookup at the last position under the id
    last id plus one, and deleting that id gives back the catalogue as it
    was before the add. *)
Theorem add_book_then_delete today books title author year books' :
  ids_ascending books →
  _add_book today books title author year = Ok books' →
  _find_book_in_the_library books' (last_id books + 1) true
    = Ok (Z.of_nat (length books))
  ∧ _delete_book books' (last_id books + 1) = Ok books.
Proof.
  intros Hasc Hadd.
  pose proof Hadd as (b & -> & (Hid & _)%init_inv)%add_book_inv.
  pose proof (add_book_ascending _ _ _ _ _ _ Hasc Hadd) as Hasc'.
  assert ((books ++ [b]) !! length books = Some b) as Hb.
  { by rewrite lookup_app_r, Nat.sub_diag. }
  rewrite <-Hid. split.
  - by apply find_present.
  - rewrite (delete_book_found _ (length books) b) by done.
    by rewrite delete_middle, app_nil_r.
Qed.

Lemma add_book_then_delete_witness :
  _find_book_in_the_library
    ([book1; book3] ++ [Build 4 (py "Book") (py "Homer") 2001 AVAILABLE]) 4 true
    = Ok 2
  ∧ _delete_book
      ([book1; book3] ++ [Build 4 (py "Book") (py "Homer") 2001 AVAILABLE]) 4
    = Ok [book1; book3].
Proof.
  apply (add_book_then_delete 2024 [book1; book3] (py "book") (py "homer") (VInt 2001)).
  - intros [|[|i]] [|[|j]] bi bj Hi Hj Hij; simplify_eq/=; try lia; done.
  - reflexivity.
Defined.

(** X5. Adding the same title, author and year again right after a
    successful add raises AlreadyInTheLibrary. *)
Theorem add_book_twice today books title author year books' :
  _add_book today books title author year = Ok books' →
  _add_book today books' title author year = Raise AlreadyInTheLibrary.
Proof.
  intros (b & -> & (_ & Ht & Ha & Hy & _)%init_inv)%add_book_inv.
  rewrite (add_book_valid _ _ _ _ _ _ _ _ Ht Ha Hy).
  rewrite bool_decide_eq_true_2; [done|].
  apply duplicate_iff. exists b. split; [|done].
  apply elem_of_app. right. by constructor.
Qed.

Lemma add_book_twice_witness :
  _add_book 2024 [book1; book3; Build 4 (py "Book") (py "Homer") 2001 AVAILABLE]
    (py "book") (py "homer") (VInt 2001) = Raise AlreadyInTheLibrary.
Proof.
  exact (add_book_twice 2024 [book1; book3] (py "book") (py "homer") (VInt 2001)
           _ eq_refl).
Defined.

(** ** Unique triples *)

Lemma triple_set_status b s : triple (set_status b s) = triple b.
Proof. done. Qed.

Lemma closed_triples_unique today : closed today triples_unique.
Proof.
  unfold triples_unique. intros books Huniq. split; [|split].
  - intros title author year books' Hadd.
    pose proof Hadd as (b & -> & (_ & Ht & Ha & Hy & _)%init_inv)%add_book_inv.
    rewrite (add_book_valid _ _ _ _ _ _ _ _ Ht Ha Hy) in Hadd.
    case_bool_decide as Hdup; [done|]. rewrite duplicate_iff in Hdup.
    rewrite fmap_app. apply list.NoDup_app. split; [done|].
    split; [|apply list.NoDup_singleton].
    intros t (b' & -> & Hb')%list_elem_of_fmap Hin%list_elem_of_singleton.
    apply Hdup. exists b'. unfold triple in Hin. by simplify_eq.
  - intros book_id books' (i & b & _ & ->)%delete_book_inv.
    rewrite list_fmap_delete.
    exact (sublist_NoDup _ _ Huniq (sublist_delete (triple <$> books) i)).
  - intros book_id books' (i & b & Hi & ->)%change_book_status_inv.
    rewrite list_fmap_insert, triple_set_status, list_insert_id; [done|].
    by rewrite list_lookup_fmap, Hi.
Qed.

(** X6. If no two records of the catalogue share author, title and year,
    the same holds after a successful add, delete or status toggle. *)
Theorem triples_unique_preserved today books :
  triples_unique books →
  (∀ title author year books',
     _add_book today books title author year = Ok books' → triples_unique books')
  ∧ (∀ book_id books',
       _delete_book books book_id = Ok books' → triples_unique books')
  ∧ (∀ book_id books',
       _change_book_status books book_id = Ok books' → triples_unique books').
Proof. apply closed_triples_unique. Qed.

Lemma triples_unique_sample : triples_unique [book1; book3; book4].
Proof. unfold triples_unique. apply (bool_decide_unpack _). by vm_compute. Qed.

Lemma triples_unique_preserved_witness :
  triples_unique
    ([book1; book3; book4]
       ++ [Build 5 (py "War And Peace") (py "Leo Tolstoy") 1869 AVAILABLE])
  ∧ triples_unique [book1; book4]
  ∧ triples_unique (<[1%nat := set_status book3 AVAILABLE]> [book1; book3; book4]).
Proof.
  destruct (triples_unique_preserved 2024 [book1; book3; book4] triples_unique_sample)
    as (Hadd & Hdel & Htog).
  split; [|split].
  - exact (Hadd (py "war and peace") (py "leo tolstoy") (VStr (py "1869")) _ eq_refl).
  - exact (Hdel 3 _ eq_refl).
  - exact (Htog 3 _ eq_refl).
Defined.

(** ** Toggles of two records *)

(** X7. In a catalogue with strictly ascending ids, two successful status
    toggles commute: toggling the second id first and the first id second
    succeeds too and ends in the same catalogue. *)
Theorem change_book_status_commute books id1 id2 books1 books12 :
  ids_ascending books →
  _change_book_status books id1 = Ok books1 →
  _change_book_status books1 id2 = Ok books12 →
  ∃ books2, _change_book_status books id2 = Ok books2
            ∧ _change_book_status books2 id1 = Ok books12.
Proof.
  intros Hasc H1 H2.
  destruct (change_book_status_any books id1) as [H|(i & bi & Hi & Hbi & H)];
    rewrite H in H1; [done|]. simplify_eq.
  assert (ids_ascending (<[i:=set_status bi (toggled (status bi))]> books)) as Hasc1.
  { by eapply ids_ascending_insert. }
  destruct (change_book_status_any
              (<[i:=set_status bi (toggled (status bi))]> books) id2)
    as [H'|(j & bj & Hj & Hbj & H')]; rewrite H' in H2; [done|]. simplify_eq.
  destruct (decide (i = j)) as [->|Hne].
  - (* the same record twice *)
    rewrite list_lookup_insert_eq in Hj by by eapply lookup_lt_Some.
    simplify_eq. eauto.
  - rewrite list_lookup_insert_ne in Hj by done.
    exists (<[j:=set_status bj (toggled (status bj))]> books). split.
    + apply change_book_status_found; [|done]. by apply find_present.
    + rewrite list_insert_insert_ne by done.
      apply change_book_status_found.
      * apply (find_present _ i bi); [by eapply ids_ascending_insert|].
        by rewrite list_lookup_insert_ne.
      * by rewrite list_lookup_insert_ne.
Qed.

Lemma change_book_status_commute_witness :
  ∃ books2, _change_book_status [book1; book3; book4] 4 = Ok books2
            ∧ _change_book_status books2 1
              = Ok [set_status book1 CHECKED_OUT; book3; set_status book4 AVAILABLE].
Proof.
  exact (change_book_status_commute [book1; book3; book4] 1 4 _ _
           ids_ascending_sample eq_refl eq_refl).
Defined.

(** ** Queries *)

Lemma split_from_piece field rest :
  no_eq field → ∀ piece,
  split_from [0x20; 0x3D; 0x20]%N 0 piece (field ++ [0x20; 0x3D; 0x20]%N ++ rest)
  = (rev piece ++ field) :: split_from [0x20; 0x3D; 0x20]%N 0 [] rest.
Proof.
  induction 1 as [|c f Hc Hf IH]; intros piece.
  - simpl. by rewrite app_nil_r.
  - cbn [app split_from].
    assert (strip_prefix [0x20; 0x3D; 0x20]%N
              (c :: f ++ 0x20%N :: 0x3D%N :: 0x20%N :: rest) = None) as ->.
    { cbn [strip_prefix]. destruct (0x20 =? c)%N; [|done].
      destruct Hf as [|d f Hd _]; cbn [strip_prefix app]; [done|].
      by apply not_eq_sym, N.eqb_neq in Hd as ->. }
    rewrite IH. simpl. by rewrite <-app_assoc.
Qed.

(** Splitting undoes joining, for pieces that hold no equals sign. *)
Lemma split_join pieces :
  Forall no_eq pieces → pieces ≠ [] →
  str_split (py " = ") (str_join (py " = ") pieces) = Some pieces.
Proof.
  change (py " = ") with [0x20; 0x3D; 0x20]%N. unfold str_split.
  intros Hall Hne. f_equal.
  induction Hall as [|p ps Hp Hps IH]; [done|].
  destruct ps as [|q ps].
  - simpl. by rewrite split_from_no_eq.
  - change (str_join ?s (p :: q :: ps)) with (p ++ s ++ str_join s (q :: ps)).
    rewrite split_from_piece by done. simpl rev. simpl app at 1.
    by rewrite IH.
Qed.

Lemma search_books_by_parts books field v return_book_obj :
  no_eq field → no_eq v →
  _search_books_by books (field ++ py " = " ++ v) return_book_obj
  = if bool_decide (str_strip (str_lower field)
                      ∈ [py "title"; py "author"; py "year"])
    then match filter (λ book, py_eq (get book (str_strip (str_lower field)))
                                 (VStr (str_strip (str_title v))) = true) books with
         | [] => if return_book_obj then Ok [] else Raise NotFoundInTheLibrary
         | results => Ok results
         end
    else Raise IncorrectSearchFields.
Proof.
  intros Hf Hv. unfold _search_books_by.
  rewrite split_query by done. cbv zeta.
  case_bool_decide; [|done]. by destruct (filter _ books).
Qed.

(** X8. A query whose field, lower-cased and stripped, is none of title,
    author and year raises IncorrectSearchFields, whatever the catalogue
    holds and in both modes of the search. *)
Theorem search_unknown_field books field v return_book_obj :
  no_eq field → no_eq v →
  str_strip (str_lower field) ∉ [py "title"; py "author"; py "year"] →
  _search_books_by books (field ++ py " = " ++ v) return_book_obj
  = Raise IncorrectSearchFields.
Proof.
  intros Hf Hv Hfield. rewrite search_books_by_parts by done.
  by rewrite bool_decide_eq_false_2.
Qed.

Lemma search_unknown_field_witness :
  _search_books_by [book1; book3] (py "isbn = 1984") false = Raise IncorrectSearchFields
  ∧ _search_books_by [] (py "id = 1") true = Raise IncorrectSearchFields.
Proof.
  split.
  - apply (search_unknown_field [book1; book3] (py "isbn") (py "1984") false).
    + by repeat constructor.
    + by repeat constructor.
    + intros H. repeat (apply elem_of_cons in H as [H|H]; [done|]).
      by apply elem_of_nil in H.
  - apply (search_unknown_field [] (py "id") (py "1") true).
    + by repeat constructor.
    + by repeat constructor.
    + intros H. repeat (apply elem_of_cons in H as [H|H]; [done|]).
      by apply elem_of_nil in H.
Defined.



(** X10. A search by year matches no record of any catalogue, whatever the
    value: the user search raises NotFoundInTheLibrary and the internal
    search returns the empty list. *)
Theorem search_by_year_never_matches books field v :
  no_eq field → no_eq v → str_strip (str_lower field) = py "year" →
  _search_books_by books (field ++ py " = " ++ v) false = Raise NotFoundInTheLibrary
  ∧ _search_books_by books (field ++ py " = " ++ v) true = Ok [].
Proof.
  intros Hf Hv Hfield. rewrite !search_books_by_parts, Hfield by done.
  rewrite bool_decide_eq_true_2 by (by repeat constructor).
  by rewrite filter_none by apply kept_year.
Qed.

Lemma search_by_year_never_matches_witness :
  _search_books_by [book1; book3; book4] (py "Year = 1949") false
    = Raise NotFoundInTheLibrary
  ∧ _search_books_by [book1; book3; book4] (py "Year = 1949") true = Ok [].
Proof.
  apply (search_by_year_never_matches [book1; book3; book4] (py "Year") (py "1949"));
    [by repeat constructor..|reflexivity].
Defined.

(** X11. A query that does not consist of exactly two parts around one
    separator " = " (the parts holding no equals sign) raises a ValueError:
    too few values for a query with no separator, the empty query included,
    too many for a query with two or more separators. *)
Theorem search_query_shape books pieces return_book_obj :
  Forall no_eq pieces → pieces ≠ [] → length pieces ≠ 2%nat →
  _search_books_by books (str_join (py " = ") pieces) return_book_obj
  = Raise (ValueError (if decide (length pieces < 2)%nat
                       then msg_unpack_few else msg_unpack_many)).
Proof.
  intros Hall Hne Hlen. unfold _search_books_by. rewrite split_join by done.
  destruct pieces as [|p [|q [|r ps]]]; try done.
Qed.

Lemma search_query_shape_witness :
  _search_books_by [book1] (py "Homer") false = Raise (ValueError msg_unpack_few)
  ∧ _search_books_by [book1] (py "") false = Raise (ValueError msg_unpack_few)
  ∧ _search_books_by [book1] (py "title = a = b") false
    = Raise (ValueError msg_unpack_many).
Proof.
  split; [|split].
  - apply (search_query_shape [book1] [py "Homer"] false); [|done|done].
    by repeat constructor.
  - apply (search_query_shape [book1] [py ""] false); [|done|done].
    by repeat constructor.
  - apply (search_query_shape [book1] [py "title"; py "a"; py "b"] false);
      [|done|done]. by repeat constructor.
Defined.

(** ** What the validators return *)

Lemma letter_not_space c : letter c = true → is_space c = false.
Proof. intros H. destruct (is_space c) eqn:E; [exfalso|done]. char_lia. Qed.

Lemma decimal_not_space c : is_decimal c = true → is_space c = false.
Proof.
  intros Hd. destruct (is_space c) eqn:E; [|done].
  assert (c = 0x09 ∨ c = 0x0A ∨ c = 0x0B ∨ c = 0x0C ∨ c = 0x0D ∨ c = 0x1C
          ∨ c = 0x1D ∨ c = 0x1E ∨ c = 0x1F ∨ c = 0x20 ∨ c = 0x85 ∨ c = 0xA0
          ∨ c = 0x1680 ∨ c = 0x2000 ∨ c = 0x2001 ∨ c = 0x2002 ∨ c = 0x2003
          ∨ c = 0x2004 ∨ c = 0x2005 ∨ c = 0x2006 ∨ c = 0x2007 ∨ c = 0x2008
          ∨ c = 0x2009 ∨ c = 0x200A ∨ c = 0x2028 ∨ c = 0x2029 ∨ c = 0x202F
          ∨ c = 0x205F ∨ c = 0x3000)%N as D by char_lia.
  repeat (destruct D as [->|D]; [by vm_compute in Hd|]). subst. by vm_compute in Hd.
Qed.

Lemma letter_to_title c : letter (to_title c) = letter c.
Proof.
  destruct (letter c) eqn:E, (letter (to_title c)) eqn:E'; try done; exfalso; char_lia.
Qed.

Lemma letter_to_lower c : letter (to_lower c) = letter c.
Proof.
  destruct (letter c) eqn:E, (letter (to_lower c)) eqn:E'; try done; exfalso; char_lia.
Qed.

Lemma not_letter_fixed c : letter c = false → to_title c = c ∧ to_lower c = c.
Proof. intros H. split; char_lia. Qed.

Lemma same_class_to_title c : same_class c (to_title c).
Proof.
  split; [apply letter_to_title|]. destruct (letter c) eqn:E.
  - assert (letter (to_title c) = true) as E' by by rewrite letter_to_title.
    destruct (author_sep c) eqn:S; [by apply sep_not_letter in S; congruence|].
    destruct (author_sep (to_title c)) eqn:S'; [|done].
    apply sep_not_letter in S'. congruence.
  - by apply not_letter_fixed in E as [-> _].
Qed.

Lemma same_class_to_lower c : same_class c (to_lower c).
Proof.
  split; [apply letter_to_lower|]. destruct (letter c) eqn:E.
  - assert (letter (to_lower c) = true) as E' by by rewrite letter_to_lower.
    destruct (author_sep c) eqn:S; [by apply sep_not_letter in S; congruence|].
    destruct (author_sep (to_lower c)) eqn:S'; [|done].
    apply sep_not_letter in S'. congruence.
  - by apply not_letter_fixed in E as [_ ->].
Qed.

Lemma title_from_same_class p s : Forall2 same_class s (title_from p s).
Proof.
  revert p. induction s as [|c s IH]; intros p; simpl; constructor; [|apply IH].
  destruct p; [apply same_class_to_lower|apply same_class_to_title].
Qed.

Lemma same_class_letters s s' :
  Forall2 same_class s s' → Forall (λ c, letter c = true) s →
  Forall (λ c, letter c = true) s'.
Proof.
  induction 1 as [|c c' s s' [Hl _] _ IH]; intros Hall; [constructor|].
  apply Forall_cons_1 in Hall as [Hc Hall]. constructor; [congruence|auto].
Qed.

Lemma same_class_groups groups : Forall author_group groups →
  ∀ s', Forall2 same_class (concat groups) s' →
  ∃ groups', s' = concat groups' ∧ Forall author_group groups'
             ∧ length groups' = length groups.
Proof.
  induction 1 as [|g gs (sep & name & -> & Hsep & Hne & Hname) _ IH]; intros s' Hs'.
  - simpl in Hs'. apply Forall2_nil_inv_l in Hs' as ->. by exists [].
  - simpl in Hs'. apply Forall2_cons_inv_l in Hs' as (sep' & t' & [_ Hsep'] & Ht' & ->).
    apply Forall2_app_inv_l in Ht' as (name' & rest' & Hname' & Hrest' & ->).
    destruct (IH _ Hrest') as (gs' & -> & Hgs' & Hlen).
    exists ((sep' :: name') :: gs'). split; [done|]. split; [|simpl; congruence].
    constructor; [|done]. exists sep', name'. split; [done|].
    split; [congruence|]. split; [|by eapply same_class_letters].
    intros ->. apply Forall2_nil_inv_r in Hname'. done.
Qed.

Lemma same_class_shape a a' :
  Forall2 same_class a a' → author_shape a → author_shape a'.
Proof.
  intros Hrel [[Hlen Hall]|(first & groups & -> & Hlen & Hall & Hne & Hgs)].
  - left. apply Forall2_length in Hrel as Hl. split; [by rewrite <-Hl|].
    by eapply same_class_letters.
  - apply Forall2_app_inv_l in Hrel as (first' & rest' & Hfirst & Hrest & ->).
    destruct (same_class_groups _ Hgs _ Hrest) as (groups' & -> & Hgs' & Hl).
    right. exists first', groups'. split; [done|].
    apply Forall2_length in Hfirst as Hl'. split; [by rewrite <-Hl'|].
    split; [by eapply same_class_letters|]. split; [|done].
    intros ->. by destruct groups.
Qed.

Lemma strip_fixed c s d :
  is_space c = false → is_space d = false →
  (∃ s', c :: s = s' ++ [d]) → str_strip (c :: s) = c :: s.
Proof.
  intros Hc Hd [s' Heq]. unfold str_strip. rewrite strip_by_eq. simpl.
  rewrite Hc, Heq. by rewrite rstrip_snoc, Hd.
Qed.

Lemma author_shape_head a :
  author_shape a → ∃ c a', a = c :: a' ∧ letter c = true.
Proof.
  intros [[Hlen Hall]|(first & groups & -> & Hlen & Hall & _)].
  - destruct a as [|c a']; [simpl in Hlen; lia|].
    apply Forall_cons_1 in Hall as [Hc _]. eauto.
  - destruct first as [|c f]; [simpl in Hlen; lia|].
    apply Forall_cons_1 in Hall as [Hc _]. simpl. eauto.
Qed.

Lemma author_shape_strip a : author_shape a → str_strip a = a.
Proof.
  intros Hshape.
  destruct (author_shape_head a Hshape) as (c & a' & -> & Hc).
  destruct (author_shape_last _ Hshape) as (s' & d & Heq & Hd).
  apply (strip_fixed c a' d); eauto using letter_not_space.
Qed.

Lemma title_from_length p s : length (title_from p s) = length s.
Proof. revert p. induction s as [|c s IH]; intros p; simpl; [done|]. by rewrite IH. Qed.

Lemma validate_author_title a x :
  _validate_author a = Ok x → x = str_title a ∧ author_shape x.
Proof.
  intros [Hshape ->]%validate_author_inv.
  rewrite author_shape_strip by done. split; [done|].
  eapply same_class_shape; [apply title_from_same_class|done].
Qed.

Lemma validate_author_fixed a x :
  _validate_author a = Ok x →
  x = str_title a ∧ length x = length a ∧ _validate_author x = Ok x.
Proof.
  intros [-> Hshape]%validate_author_title.
  split; [done|]. split; [apply title_from_length|].
  rewrite validate_author_accepts by done.
  rewrite author_shape_strip by done.
  unfold str_title. by rewrite title_from_idem.
Qed.

(** X12. An author that the validator accepts is returned title-cased, with
    nothing stripped and the length kept, and the returned author is
    accepted again and returned unchanged. *)
Theorem validate_author_stable a x :
  _validate_author a = Ok x →
  x = str_title a ∧ length x = length a ∧ _validate_author x = Ok x.
Proof. apply validate_author_fixed. Qed.

Lemma validate_author_stable_witness :
  py "Jean-Pierre Smith" = str_title (py "jean-pierre smith")
  ∧ length (py "Jean-Pierre Smith") = length (py "jean-pierre smith")
  ∧ _validate_author (py "Jean-Pierre Smith") = Ok (py "Jean-Pierre Smith").
Proof.
  exact (validate_author_stable (py "jean-pierre smith") (py "Jean-Pierre Smith") eq_refl).
Defined.

Lemma lstrip_length space s : (length (lstrip_by space s) ≤ length s)%nat.
Proof.
  induction s as [|c s IH]; [done|]. simpl. destruct (space c); simpl; lia.
Qed.

Lemma title_regex_head pos s rest :
  matches title_regex pos s rest →
  ∃ c s', s = c :: s' ∧ (letter c = true ∨ is_decimal c = true).
Proof.
  intros [H|[H|H]].
  - destruct H as (? & s1 & -> & [-> ->] & first & s2 & -> & Hfirst & _).
    apply repeats_cls_inv in Hfirst as [Hlen Hall].
    destruct first as [|c f]; [simpl in Hlen; lia|].
    apply Forall_cons_1 in Hall as [Hc _]. simpl. eauto.
  - destruct H as (? & s1 & -> & [-> ->] & first & s2 & -> & Hfirst & _).
    apply repeats_cls_inv in Hfirst as [Hlen Hall].
    destruct first as [|c f]; [simpl in Hlen; lia|].
    apply Forall_cons_1 in Hall as [Hc _]. simpl. eauto.
  - destruct H as (? & s1 & -> & [-> ->] & first & s2 & -> & Hfirst & _).
    apply repeats_cls_inv in Hfirst as [Hlen Hall].
    destruct first as [|c f]; [simpl in Hlen; lia|].
    apply Forall_cons_1 in Hall as [Hc _]. simpl. eauto.
Qed.

Lemma validate_title_head t x :
  _validate_title t = Ok x →
  ∃ c t', t = c :: t' ∧ (letter c = true ∨ is_decimal c = true).
Proof.
  unfold _validate_title.
  destruct (search title_regex t) as [m|] eqn:Hs; [|done].
  case_decide as Hg; [|done]. intros _.
  assert (matches_whole title_regex t) as Hw by (by exists m).
  apply matches_whole_sound in Hw.
  - by apply title_regex_head in Hw.
  - intros pos s1 s2 H. by apply title_regex_inv in H as [? _].
Qed.

Lemma validate_title_fixed t x :
  _validate_title t = Ok x →
  (∃ c rest, x = c :: rest ∧ (letter c = true ∨ is_decimal c = true))
  ∧ str_strip x = x ∧ str_title x = x ∧ (length x ≤ length t)%nat.
Proof.
  intros Hv. pose proof Hv as [_ ->]%validate_title_inv.
  apply validate_title_head in Hv as (c & t' & -> & Hc).
  assert (is_space c = false) as Hsp.
  { destruct Hc; [by apply letter_not_space|by apply decimal_not_space]. }
  split; [|split; [|split]].
  - unfold str_strip. rewrite strip_by_eq. simpl. rewrite Hsp.
    destruct (rstrip_head is_space c t' Hsp) as [u ->]. simpl.
    exists (to_title c), (title_from (is_cased c) u). split; [done|].
    destruct (letter c) eqn:Hl.
    + left. by rewrite letter_to_title.
    + right. apply not_letter_fixed in Hl as [-> _]. by destruct Hc.
  - rewrite strip_title. unfold str_strip. by rewrite strip_idem.
  - unfold str_title. by rewrite title_from_idem.
  - unfold str_title. rewrite title_from_length.
    unfold str_strip, strip_by. rewrite length_rev.
    etrans; [apply lstrip_length|]. rewrite length_rev. apply lstrip_length.
Qed.

(** X13. A title that the validator accepts is returned beginning with a
    letter or a decimal digit (so it is not empty), with no whitespace at
    either end, already in title case, and no longer than the input. *)
Theorem validate_title_normal t x :
  _validate_title t = Ok x →
  (∃ c rest, x = c :: rest ∧ (letter c = true ∨ is_decimal c = true))
  ∧ str_strip x = x ∧ str_title x = x ∧ (length x ≤ length t)%nat.
Proof. apply validate_title_fixed. Qed.

Lemma validate_title_normal_witness :
  (∃ c rest, py "12 Стульев" = c :: rest ∧ (letter c = true ∨ is_decimal c = true))
  ∧ str_strip (py "12 Стульев") = py "12 Стульев"
  ∧ str_title (py "12 Стульев") = py "12 Стульев"
  ∧ (length (py "12 Стульев") ≤ length (py "12 стульев  "))%nat.
Proof.
  exact (validate_title_normal (py "12 стульев  ") (py "12 Стульев") eq_refl).
Defined.

(** ** Well-formed records *)

Lemma validate_year_inv today v y :
  _validate_year today v = Ok y → 0 < y ≤ today.
Proof.
  unfold _validate_year. destruct (int v) as [z|[]]; try done.
  case_decide; [done|]. intros ?; simplify_eq. lia.
Qed.

Lemma init_well_formed today last title author year b :
  __init__ today last title author year = Ok b → well_formed today b.
Proof.
  intros (_ & Ht & Ha & Hy & Hs)%init_inv.
  apply validate_title_fixed in Ht as (Hhead & Hstrip & _).
  pose proof Ha as [_ Hshape]%validate_author_title.
  apply validate_author_fixed in Ha as (Heq & _ & _).
  apply validate_year_inv in Hy.
  repeat split; try done; try lia.
  - rewrite Heq. unfold str_title. by rewrite title_from_idem.
  - by left.
Qed.

Lemma closed_well_formed today : closed today (Forall (well_formed today)).
Proof.
  intros books Hwf. split; [|split].
  - intros title author year books' (b & -> & Hb%init_well_formed)%add_book_inv.
    apply Forall_app. split; [done|]. by constructor.
  - intros book_id books' (i & b & _ & ->)%delete_book_inv.
    by apply Forall_delete.
  - intros book_id books' (i & b & Hi & ->)%change_book_status_inv.
    apply Forall_insert; [done|].
    rewrite Forall_lookup in Hwf. specialize (Hwf _ _ Hi).
    destruct Hwf as (H1 & H2 & H3 & H4 & H5 & _).
    split; [exact H1|]. split; [exact H2|]. split; [exact H3|].
    split; [exact H4|]. split; [exact H5|]. apply toggled_label.
Qed.

(** X14. If every record of the catalogue is well formed (title beginning
    with a letter or digit and stripped, author of the admitted shape in
    title case, year from 1 to the current year, one of the two status
    labels), so is every record after a successful add, delete or status
    toggle. *)
Theorem well_formed_preserved today books :
  Forall (well_formed today) books →
  (∀ title author year books',
     _add_book today books title author year = Ok books' →
     Forall (well_formed today) books')
  ∧ (∀ book_id books',
       _delete_book books book_id = Ok books' → Forall (well_formed today) books')
  ∧ (∀ book_id books',
       _change_book_status books book_id = Ok books' →
       Forall (well_formed today) books').
Proof. apply closed_well_formed. Qed.

Lemma well_formed_book1 : well_formed 2024 book1.
Proof.
  split; [|split; [|split; [|split; [|split]]]].
  - exists 0x42%N, (py "ook"). split; [done|by left].
  - reflexivity.
  - left. split; [vm_compute; lia|by repeat constructor].
  - reflexivity.
  - simpl. lia.
  - by left.
Qed.

Lemma well_formed_preserved_witness :
  Forall (well_formed 2024)
    ([book1] ++ [Build 2 (py "War And Peace") (py "Leo Tolstoy") 1869 AVAILABLE])
  ∧ Forall (well_formed 2024) []
  ∧ Forall (well_formed 2024) [set_status book1 CHECKED_OUT].
Proof.
  destruct (well_formed_preserved 2024 [book1]) as (Hadd & Hdel & Htog).
  { constructor; [apply well_formed_book1|constructor]. }
  split; [|split].
  - exact (Hadd (py "war and peace") (py "leo tolstoy") (VStr (py "1869")) _ eq_refl).
  - exact (Hdel 1 _ eq_refl).
  - exact (Htog 1 _ eq_refl).
Defined.

Import Console.
Example ex_console_session :
  run 2024 NoFile [py "1"; py "book, homer, 2000"; py " 3 "; py "1"; py "5";
                   py "year = 2000"; py "title = BOOK"; py "2"; py "x"; py "1"; py "0"]
  = (Exited,
     Session [] (Json [])
       [MenuShown; Prompt Adding; BookAdded; MenuShown; Prompt Changing; StatusChanged;
        MenuShown; Prompt Searching; ErrorRetry NotFoundInTheLibrary; Prompt Searching;
        SearchResults [set_status book1 CHECKED_OUT]; MenuShown; Prompt Deleting;
        IdNotInteger; Prompt Deleting; BookDeleted; MenuShown; Exiting]).
Proof. vm_compute. reflexivity. Qed.
Example ex_comma_split :
  str_split (py ", ") (py ", ,, , ") = Some [py ""; py ","; py ""; py ""]
  ∧ str_split (py ", ") (py ",  ,") = Some [py ""; py " ,"]
  ∧ str_split (py ", ") (py "a,b, c") = Some [py "a,b"; py "c"].
Proof. repeat split; vm_compute; reflexivity. Qed.

(** ** The console loops *)

Lemma closed_ids_ascending today : closed today ids_ascending.
Proof.
  intros books Hasc. split; [|split].
  - intros title author year books' Hadd.
    pose proof Hadd as (b & -> & _)%add_book_inv. by eapply add_book_ascending.
  - intros book_id books' (i & b & _ & ->)%delete_book_inv.
    by apply ids_ascending_delete.
  - intros book_id books' (i & b & Hi & ->)%change_book_status_inv.
    by eapply ids_ascending_insert.
Qed.

(** What one iteration does to the catalogue and to the file: nothing, or
    one successful operation whose result is written to the file. *)
Lemma iteration_effect today m line s n s' :
  iteration today m line s = (n, s') →
  (books s' = books s ∧ store s' = store s)
  ∨ (store s' = Json (books s')
     ∧ ((∃ title author year,
           _add_book today (books s) title author year = Ok (books s'))
        ∨ (∃ book_id, _delete_book (books s) book_id = Ok (books s'))
        ∨ (∃ book_id, _change_book_status (books s) book_id = Ok (books s')))).
Proof.
  destruct m; simpl.
  - unfold menu. repeat case_decide; intros ?; simplify_eq; by left.
  - unfold handle_add_book. case_decide; [intros ?; simplify_eq; by left|].
    destruct (str_split _ _) as [[|t [|a [|y [|? ?]]]]|];
      try (intros ?; simplify_eq; by left).
    destruct (_add_book _ _ _ _ _) as [books'|[]] eqn:Hadd;
      intros ?; simplify_eq; try by left.
    right. split; [done|]. left. eauto.
  - unfold handle_delete_book. case_decide; [intros ?; simplify_eq; by left|].
    destruct (int _) as [k|e] eqn:Hint; simpl.
    + destruct (_delete_book _ _) as [books'|[]] eqn:Hdel;
        intros ?; simplify_eq; try by left.
      right. split; [done|]. right. left. eauto.
    + destruct e; intros ?; simplify_eq; by left.
  - unfold handle_change_status. case_decide; [intros ?; simplify_eq; by left|].
    destruct (int _) as [k|e] eqn:Hint; simpl.
    + destruct (_change_book_status _ _) as [books'|[]] eqn:Hdel;
        intros ?; simplify_eq; try by left.
      right. split; [done|]. right. right. eauto.
    + destruct e; intros ?; simplify_eq; by left.
  - unfold handle_search_books. case_decide; [intros ?; simplify_eq; by left|].
    destruct (_search_books_by _ _ _) as [r|[]]; intros ?; simplify_eq; by left.
Qed.

Lemma run_from_invariant today (P : session → Prop) :
  (∀ m s, P s → P (print m s)) →
  (∀ m line s n s', P s → iteration today m line s = (n, s') → P s') →
  ∀ inputs m s, P s → P (run_from today m inputs s).2.
Proof.
  intros Hprint Hiter inputs.
  induction inputs as [|line rest IH]; intros m s Hs; simpl.
  - by apply Hprint.
  - destruct (iteration _ _ _ _) as [[m'| |e] s'] eqn:Hit; simpl.
    + apply IH. eapply Hiter; [|exact Hit]. by apply Hprint.
    + eapply Hiter; [|exact Hit]. by apply Hprint.
    + eapply Hiter; [|exact Hit]. by apply Hprint.
Qed.

Lemma run_from_closed today P :
  closed today P →
  ∀ inputs m s, P (books s) → P (books (run_from today m inputs s).2).
Proof.
  intros Hclosed.
  apply (run_from_invariant today (λ s, P (books s))); [done|].
  intros m line s n s' Hs [[-> _]|[_ Hop]]%iteration_effect; [done|].
  destruct (Hclosed _ Hs) as (Hadd & Hdel & Htog).
  destruct Hop as [(t & a & y & H)|[(k & H)|(k & H)]]; eauto.
Qed.

(** The three invariants of the data model together. *)
Lemma closed_catalogue today :
  closed today (λ books, ids_ascending books ∧ triples_unique books
                         ∧ Forall (well_formed today) books).
Proof.
  intros books (H1 & H2 & H3).
  destruct (closed_ids_ascending today _ H1) as (A1 & D1 & T1).
  destruct (closed_triples_unique today _ H2) as (A2 & D2 & T2).
  destruct (closed_well_formed today _ H3) as (A3 & D3 & T3).
  split; [|split]; intros; repeat split; eauto.
Qed.

(** X15. Whatever lines are typed, a run of the console that starts from an
    absent or undecodable file, or from a file whose catalogue has strictly
    ascending ids, unique triples and well-formed records, ends with a
    catalogue that has strictly ascending ids, unique triples and
    well-formed records. *)
Theorem run_keeps_catalogue_invariants today f inputs :
  match f with
  | Json data => ids_ascending data ∧ triples_unique data
                 ∧ Forall (well_formed today) data
  | _ => True
  end →
  ids_ascending (books (run today f inputs).2)
  ∧ triples_unique (books (run today f inputs).2)
  ∧ Forall (well_formed today) (books (run today f inputs).2).
Proof.
  intros Hf. unfold run. apply (run_from_closed today _ (closed_catalogue today)).
  destruct f; simpl; [| |done].
  - split; [apply ids_ascending_nil|]. split; [apply NoDup_nil_2|constructor].
  - split; [apply ids_ascending_nil|]. split; [apply NoDup_nil_2|constructor].
Qed.

Lemma run_keeps_catalogue_invariants_witness :
  ids_ascending (books (run 2024 (Json [book1])
                          [py "1"; py "if, li bai, 1500"; py "2"; py "1"]).2)
  ∧ triples_unique (books (run 2024 (Json [book1])
                             [py "1"; py "if, li bai, 1500"; py "2"; py "1"]).2)
  ∧ Forall (well_formed 2024)
      (books (run 2024 (Json [book1])
                [py "1"; py "if, li bai, 1500"; py "2"; py "1"]).2).
Proof.
  apply (run_keeps_catalogue_invariants 2024 (Json [book1])).
  split; [|split].
  - intros [|i] [|j] bi bj Hi Hj Hij; simplify_eq/=; lia.
  - apply (bool_decide_unpack _). by vm_compute.
  - constructor; [apply well_formed_book1|constructor].
Defined.

(** X16. Whatever lines are typed, when a run of the console ends (by
    exit, by an exception or at the end of input) the file holds exactly the
    catalogue in memory; the one exception is a file that did not decode
    and a run without any successful change, which leaves that file as it
    was and the catalogue empty. *)
Theorem run_keeps_file_in_step today f inputs :
  store (run today f inputs).2 = Json (books (run today f inputs).2)
  ∨ (f = Corrupt ∧ store (run today f inputs).2 = Corrupt
     ∧ books (run today f inputs).2 = []).
Proof.
  unfold run.
  apply (run_from_invariant today
           (λ s, store s = Json (books s)
                 ∨ (f = Corrupt ∧ store s = Corrupt ∧ books s = []))).
  - done.
  - intros m line s n s' Hs [[Hb Hst]|[Hst _]]%iteration_effect.
    + by rewrite Hb, Hst.
    + by left.
  - destruct f; simpl; auto.
Qed.

Lemma run_keeps_file_in_step_example :
  store (run 2024 Corrupt [py "1"; py "book, homer, 2000"; py "0"]).2
  = Json [book1].
Proof. reflexivity. Qed.

(** ** Exceptions that leave the loops *)

Lemma validate_title_raises t e : _validate_title t = Raise e → e = ValueError msg_title.
Proof.
  unfold _validate_title. intros H.
  destruct (search _ _); [case_decide|]; by simplify_eq.
Qed.

Lemma validate_author_raises a e : _validate_author a = Raise e → e = ValueError msg_author.
Proof.
  destruct (validate_author_cases a) as [[_ ->]|[_ ->]]; intros ?; by simplify_eq.
Qed.

Lemma validate_year_raises today y e :
  _validate_year today (VStr y) = Raise e → ∃ m, e = ValueError m.
Proof.
  rewrite validate_year_str. destruct (int_of_str y) as [z|].
  - rewrite validate_year_int. case_decide; intros ?; simplify_eq. eauto.
  - intros ?; simplify_eq. eauto.
Qed.

Lemma search_raises books q mode e :
  _search_books_by books q mode = Raise e →
  e = IncorrectSearchFields ∨ e = NotFoundInTheLibrary ∨ ∃ m, e = ValueError m.
Proof.
  unfold _search_books_by.
  destruct (str_split _ q) as [[|f [|v [|? ?]]]|];
    try by (intros ?; simplify_eq; eauto).
  cbv zeta. case_bool_decide; [|by (intros ?; simplify_eq; eauto)].
  destruct (filter _ books); [destruct mode|]; intros ?; simplify_eq; eauto.
Qed.

Lemma init_raises today last t a y e :
  __init__ today last t a (VStr y) = Raise e → ∃ m, e = ValueError m.
Proof.
  unfold __init__, mbind, result_bind.
  destruct (_validate_title t) as [nt|e1] eqn:Ht.
  - destruct (_validate_author a) as [na|e2] eqn:Ha.
    + destruct (_validate_year today (VStr y)) as [ny|e3] eqn:Hy; [done|].
      intros ?; simplify_eq. by eapply validate_year_raises.
    + intros ?; simplify_eq. apply validate_author_raises in Ha as ->. eauto.
  - intros ?; simplify_eq. apply validate_title_raises in Ht as ->. eauto.
Qed.

Lemma add_book_raises today books t a y e :
  _add_book today books t a (VStr y) = Raise e →
  (∃ m, e = ValueError m) ∨ e = AlreadyInTheLibrary.
Proof.
  destruct (__init__ today (last_id books) t a (VStr y)) as [b|e0] eqn:Hinit.
  - apply init_inv in Hinit as (_ & Ht & Ha & Hy & _).
    rewrite (add_book_valid _ _ _ _ _ _ _ _ Ht Ha Hy).
    case_bool_decide; intros ?; simplify_eq. by right.
  - unfold _add_book. rewrite add_book_last_id. unfold mbind, result_bind.
    rewrite Hinit. intros ?; simplify_eq. left. by eapply init_raises.
Qed.

Lemma iteration_crash today m line s e s' :
  iteration today m line s = (Crash e, s') →
  m = Menu ∧ e = Core (ValueError msg_choice).
Proof.
  destruct m; simpl.
  - unfold menu. repeat case_decide; intros ?; by simplify_eq.
  - unfold handle_add_book. case_decide; [done|].
    destruct (str_split _ _) as [[|t [|a [|y [|? ?]]]]|]; try done.
    destruct (_add_book _ _ _ _ _) as [books'|e0] eqn:Hadd; [done|].
    apply add_book_raises in Hadd as [[m ->]| ->]; done.
  - unfold handle_delete_book. case_decide; [done|].
    destruct (int _) as [k|e0] eqn:Hint; simpl.
    + destruct (delete_book_any (books s) k) as [->|(i & b & _ & _ & ->)]; done.
    + unfold int in Hint. destruct (int_of_str line); by simplify_eq.
  - unfold handle_change_status. case_decide; [done|].
    destruct (int _) as [k|e0] eqn:Hint; simpl.
    + destruct (change_book_status_any (books s) k) as [->|(i & b & _ & _ & ->)]; done.
    + unfold int in Hint. destruct (int_of_str line); by simplify_eq.
  - unfold handle_search_books. case_decide; [done|].
    destruct (_search_books_by _ _ _) as [r|e0] eqn:Hs; [done|].
    apply search_raises in Hs as [->|[->|[m ->]]]; done.
Qed.

(** X17. The only exceptions that leave the console loop are the
    EOFError of the end of input and the ValueError raised for a menu choice
    that is none of 0 to 5: no exception of an add, delete, status toggle or
    search gets past its handler. *)
Theorem run_crashes_only_at_the_menu today f inputs e :
  (run today f inputs).1 = Crashed e →
  e = EOFError ∨ e = Core (ValueError msg_choice).
Proof.
  unfold run. generalize (__post_init__ f) Menu. intros s m. revert m s.
  induction inputs as [|line rest IH]; intros m s; simpl.
  - intros ?; simplify_eq. by left.
  - destruct (iteration _ _ _ _) as [[m'| |e'] s'] eqn:Hit; simpl.
    + apply IH.
    + done.
    + intros ?; simplify_eq. right. by apply iteration_crash in Hit as [_ ->].
Qed.

Lemma run_crashes_only_at_the_menu_witness :
  Core (ValueError msg_choice) = EOFError
  ∨ Core (ValueError msg_choice) = Core (ValueError msg_choice).
Proof.
  exact (run_crashes_only_at_the_menu 2024 NoFile [py "4"; py "list"] _ eq_refl).
Defined.

(** ** Lines of the add loop *)

Lemma split_from_no_comma v : no_comma v →
  ∀ piece, split_from [0x2C; 0x20]%N 0 piece v = [rev piece ++ v].
Proof.
  induction 1 as [|c v Hc Hv IH]; intros piece; cbn [split_from].
  - by rewrite app_nil_r.
  - assert (strip_prefix [0x2C; 0x20]%N (c :: v) = None) as ->.
    { cbn [strip_prefix]. by apply not_eq_sym, N.eqb_neq in Hc as ->. }
    rewrite IH. simpl. by rewrite <-app_assoc.
Qed.

Lemma split_from_comma_piece field rest :
  no_comma field → ∀ piece,
  split_from [0x2C; 0x20]%N 0 piece (field ++ [0x2C; 0x20]%N ++ rest)
  = (rev piece ++ field) :: split_from [0x2C; 0x20]%N 0 [] rest.
Proof.
  induction 1 as [|c f Hc Hf IH]; intros piece.
  - simpl. by rewrite app_nil_r.
  - cbn [app split_from].
    assert (strip_prefix [0x2C; 0x20]%N (c :: f ++ 0x2C%N :: 0x20%N :: rest) = None) as ->.
    { cbn [strip_prefix]. by apply not_eq_sym, N.eqb_neq in Hc as ->. }
    rewrite IH. simpl. by rewrite <-app_assoc.
Qed.

Lemma split_comma_join pieces :
  Forall no_comma pieces → pieces ≠ [] →
  str_split (py ", ") (str_join (py ", ") pieces) = Some pieces.
Proof.
  change (py ", ") with [0x2C; 0x20]%N. unfold str_split.
  intros Hall Hne. f_equal.
  induction Hall as [|p ps Hp Hps IH]; [done|].
  destruct ps as [|q ps].
  - simpl. by rewrite split_from_no_comma.
  - change (str_join ?s (p :: q :: ps)) with (p ++ s ++ str_join s (q :: ps)).
    rewrite split_from_comma_piece by done. simpl rev. simpl app at 1.
    by rewrite IH.
Qed.

(** X18. The add loop on a line of comma-free fields joined by ", ": with
    exactly three fields it calls add with them (the year as a string) and,
    on success, stores the new catalogue in memory and in the file, reports
    it and returns to the menu, while on failure it reports the error and
    reads again with nothing changed; with any other number of fields it
    reports the format error and reads again with nothing changed. *)
Theorem handle_add_book_line today pieces s :
  Forall no_comma pieces → pieces ≠ [] → pieces ≠ [py "-1"] →
  handle_add_book today (str_join (py ", ") pieces) s
  = match pieces with
    | [title; author; year] =>
      match _add_book today (books s) title author (VStr year) with
      | Ok books' =>
        (Continue Menu, Session books' (Json books') (out s ++ [BookAdded]))
      | Raise e => (Continue Adding, print (ErrorRetry e) s)
      end
    | _ => (Continue Adding, print AddFormatError s)
    end.
Proof.
  intros Hall Hne Hcancel. unfold handle_add_book.
  rewrite decide_False.
  - rewrite split_comma_join by done.
    destruct pieces as [|t [|a [|y [|? ?]]]]; try done.
    destruct (_add_book _ _ _ _ _) as [books'|e] eqn:Hadd; [done|].
    by apply add_book_raises in Hadd as [[m ->]| ->].
  - intros Heq. apply Hcancel.
    assert (str_split (py ", ") (str_join (py ", ") pieces) = Some [py "-1"]) as H
      by by rewrite Heq.
    rewrite split_comma_join in H by done. by simplify_eq.
Qed.

Lemma handle_add_book_line_witness :
  handle_add_book 2024 (py "if, li bai, 1500") (Session [book1] (Json [book1]) [])
  = (Continue Menu,
     Session [book1; Build 2 (py "If") (py "Li Bai") 1500 AVAILABLE]
       (Json [book1; Build 2 (py "If") (py "Li Bai") 1500 AVAILABLE]) [BookAdded])
  ∧ handle_add_book 2024 (py "If, Then, Li Bai, 1500") (Session [book1] (Json [book1]) [])
    = (Continue Adding, Session [book1] (Json [book1]) [AddFormatError]).
Proof.
  split.
  - apply (handle_add_book_line 2024 [py "if"; py "li bai"; py "1500"]
             (Session [book1] (Json [book1]) [])); [|done|done].
    by repeat constructor.
  - apply (handle_add_book_line 2024 [py "If"; py "Then"; py "Li Bai"; py "1500"]
             (Session [book1] (Json [book1]) [])); [|done|done].
    by repeat constructor.
Defined.
